(** * Unraid VM inventory plugin: model and verification

    A shallow embedding of [plugins/inventory/vm_inventory.py]
    (class [InventoryModule]: [parse] and [_parse_virsh_domifaddr]).

    Conventions of the model.
    - A Python [str] is a list of characters, [list ascii]; a character
      stands for the code point of the same number (0..255), and the
      character tables below ([isspace], [isalnum], [lower], line
      boundaries) are the ones Python applies to these code points.
      Text with code points above 255 is outside the model (there
      [str.lower] is no longer a map on single characters).
    - A regular-expression pattern is taken in parsed form ([regex]);
      [re_match] decides whether [re.match] returns a match object.
      The fragment covers classes, sequence, alternation and repetition;
      anchors and look-ahead are not covered, and a pattern that does
      not compile is outside the type.
    - An exception is a value of [exn]; fallible code returns [result].
    - The SSH client, the remote host and the Ansible inventory are
      collaborators: the host is an oracle answering commands ([host]),
      the same way each time a command is asked; the inventory is the
      sequence of calls it accepted ([inv_call]), and it refuses, as
      Ansible's does, a host whose name is the empty string.  Reading
      the configuration fails, as the framework's loader does, when an
      option declared required is absent.
    - Progress messages printed by the run and the wording of error
      messages are left out; an [AnsibleError] keeps what it reports
      and the exception that caused it. *)

From Stdlib Require Import List Bool Arith Lia Ascii String.
Import ListNotations.

Set Implicit Arguments.

(* ================================================================= *)
(** ** Strings and characters *)

Definition str := list ascii.

(** Literals: [$"abc"] is the Python string ['abc']. *)
Notation "$ s" := (list_ascii_of_string s) (at level 1, format "$ s").

Definition code (c : ascii) : nat := nat_of_ascii c.

Definition between (lo hi : nat) (c : ascii) : bool :=
  (lo <=? code c) && (code c <=? hi).

Definition str_eqb (a b : str) : bool :=
  if list_eq_dec ascii_dec a b then true else false.

(** [str.isspace] on one character: the characters [str.split()] splits on. *)
Definition isspace (c : ascii) : bool :=
  between 9 13 c || between 28 32 c || (code c =? 133) || (code c =? 160).

(** Line boundaries of [str.splitlines]. *)
Definition is_linebreak (c : ascii) : bool :=
  between 10 13 c || between 28 30 c || (code c =? 133).

(** [str.isalnum] on one character. *)
Definition isalnum (c : ascii) : bool :=
  between 48 57 c || between 65 90 c || between 97 122 c
  || (code c =? 170) || between 178 179 c || (code c =? 181)
  || between 185 186 c || between 188 190 c
  || between 192 214 c || between 216 246 c || between 248 255 c.

(** The class [\w] of the [re] module on [str] patterns. *)
Definition is_word (c : ascii) : bool := isalnum c || (code c =? 95).

(** The class [\W]. *)
Definition is_nonword (c : ascii) : bool := negb (is_word c).

(** [str.lower] on one character. *)
Definition lower_char (c : ascii) : ascii :=
  if between 65 90 c || (between 192 222 c && negb (code c =? 215))
  then ascii_of_nat (code c + 32)
  else c.

(** [s.lower()] *)
Definition lower (s : str) : str := map lower_char s.

(** [s.replace(old, new)] for one-character [old] and [new]. *)
Definition replace (old new : ascii) (s : str) : str :=
  map (fun c => if Ascii.eqb c old then new else c) s.

(** [sub in s] *)
Fixpoint startswith (sub s : str) : bool :=
  match sub, s with
  | [], _ => true
  | _ :: _, [] => false
  | a :: sub', b :: s' => Ascii.eqb a b && startswith sub' s'
  end.

Fixpoint contains (sub s : str) : bool :=
  startswith sub s ||
  match s with
  | [] => false
  | _ :: s' => contains sub s'
  end.

(** [s.split()]: the maximal runs of non-whitespace characters.
    [cur] is the token being read. *)
Fixpoint split_from (cur s : str) : list str :=
  match s with
  | [] => match cur with [] => [] | _ => [cur] end
  | c :: s' =>
      if isspace c
      then match cur with
           | [] => split_from [] s'
           | _ => cur :: split_from [] s'
           end
      else split_from (cur ++ [c]) s'
  end.

Definition split (s : str) : list str := split_from [] s.

(** [s.split(sep)] for a one-character separator. *)
Fixpoint split_on_from (sep : ascii) (cur s : str) : list str :=
  match s with
  | [] => [cur]
  | c :: s' =>
      if Ascii.eqb c sep
      then cur :: split_on_from sep [] s'
      else split_on_from sep (cur ++ [c]) s'
  end.

Definition split_on (sep : ascii) (s : str) : list str :=
  split_on_from sep [] s.

(** [s.splitlines()]: a carriage return followed by a line feed is one
    boundary; no empty last line is produced after a final boundary. *)
Fixpoint splitlines_from (cur s : str) : list str :=
  match s with
  | [] => match cur with [] => [] | _ => [cur] end
  | c :: s' =>
      if is_linebreak c
      then match s' with
           | c' :: s'' =>
               if (code c =? 13) && (code c' =? 10)
               then cur :: splitlines_from [] s''
               else cur :: splitlines_from [] s'
           | [] => cur :: splitlines_from [] s'
           end
      else splitlines_from (cur ++ [c]) s'
  end.

Definition splitlines (s : str) : list str := splitlines_from [] s.

(** Truth value of a string: [if s:]. *)
Definition truthy (s : str) : bool :=
  match s with [] => false | _ => true end.

(* ================================================================= *)
(** ** Exceptions *)

Inductive exn : Type :=
| IndexError
| RemoteError (detail : str)        (* raised by the transport *)
| AnsibleRequiredOptionError        (* raised by the configuration loader *)
| AnsibleError (msg : ansible_msg)
with ansible_msg : Type :=
| MissingRequiredParameters
| ErrorListingVMs (cause : exn)
| ErrorGettingIP (vm : str) (cause : exn)
| InvalidEmptyHostName.             (* raised by the inventory *)

Inductive result (A : Type) : Type :=
| Return (a : A)
| Raise (e : exn).
Arguments Return {A} a.
Arguments Raise {A} e.

(** [l[0]] *)
Definition first_item (A : Type) (l : list A) : result A :=
  match l with
  | [] => Raise IndexError
  | x :: _ => Return x
  end.

(** [l[-1]] *)
Fixpoint last_item (A : Type) (l : list A) : result A :=
  match l with
  | [] => Raise IndexError
  | [x] => Return x
  | _ :: l' => last_item l'
  end.

(* ================================================================= *)
(** ** Regular expressions *)

(** Patterns in parsed form.  [Sym p] is a one-character class. *)
Inductive regex : Type :=
| Void
| Eps
| Sym (p : ascii -> bool)
| Seq (r1 r2 : regex)
| Alt (r1 r2 : regex)
| Star (r : regex).

Definition Chr (c : ascii) : regex := Sym (Ascii.eqb c).
Definition Dot : regex := Sym (fun c => negb (code c =? 10)).
Definition Word : regex := Sym is_word.
Definition Plus (r : regex) : regex := Seq r (Star r).

(** The plugin's default patterns: ['.*'] and ['en\w+']. *)
Definition default_name_pattern : regex := Star Dot.
Definition default_interface_pattern : regex :=
  Seq (Chr "e") (Seq (Chr "n") (Plus Word)).

Fixpoint nullable (r : regex) : bool :=
  match r with
  | Void => false
  | Eps => true
  | Sym _ => false
  | Seq r1 r2 => nullable r1 && nullable r2
  | Alt r1 r2 => nullable r1 || nullable r2
  | Star _ => true
  end.

Fixpoint deriv (c : ascii) (r : regex) : regex :=
  match r with
  | Void => Void
  | Eps => Void
  | Sym p => if p c then Eps else Void
  | Seq r1 r2 =>
      if nullable r1
      then Alt (Seq (deriv c r1) r2) (deriv c r2)
      else Seq (deriv c r1) r2
  | Alt r1 r2 => Alt (deriv c r1) (deriv c r2)
  | Star r1 => Seq (deriv c r1) (Star r1)
  end.

(** [re.match(pattern, s)] as a truth value: the pattern matches at
    the start of [s]; the match need not reach the end of [s]. *)
Fixpoint re_match (r : regex) (s : str) : bool :=
  nullable r ||
  match s with
  | [] => false
  | c :: s' => re_match (deriv c r) s'
  end.

(** The language of a pattern. *)
Inductive matches : regex -> str -> Prop :=
| M_Eps : matches Eps []
| M_Sym p c : p c = true -> matches (Sym p) [c]
| M_Seq r1 r2 s1 s2 :
    matches r1 s1 -> matches r2 s2 -> matches (Seq r1 r2) (s1 ++ s2)
| M_AltL r1 r2 s : matches r1 s -> matches (Alt r1 r2) s
| M_AltR r1 r2 s : matches r2 s -> matches (Alt r1 r2) s
| M_Star0 r : matches (Star r) []
| M_StarS r s1 s2 :
    matches r s1 -> matches (Star r) s2 -> matches (Star r) (s1 ++ s2).

(** A pattern matches a prefix of the string. *)
Definition prefix_matches (r : regex) (s : str) : Prop :=
  exists p t, s = p ++ t /\ matches r p.

(* ================================================================= *)
(** ** [_parse_virsh_domifaddr] *)

(** The loop of lines 163-167. *)
Fixpoint _parse_virsh_domifaddr (lines : list str) (interface_pattern : regex)
  : result (option str) :=
  match lines with
  | [] => Return None
  | line :: rest =>
      let splitted_line := split line in
      if contains $"ipv4" line
      then match first_item splitted_line with
           | Raise e => Raise e
           | Return name =>
               if re_match interface_pattern name
               then match last_item splitted_line with
                    | Raise e => Raise e
                    | Return field =>
                        match first_item (split_on "/" field) with
                        | Raise e => Raise e
                        | Return addr => Return (Some addr)
                        end
                    end
               else _parse_virsh_domifaddr rest interface_pattern
           end
      else _parse_virsh_domifaddr rest interface_pattern
  end.

Definition sample_report : list str :=
  [ $" Name       MAC address          Protocol     Address";
    $"-------------------------------------------------------------------------------";
    $" lo         00:00:00:00:00:00    ipv4         127.0.0.1/8";
    $" -          -                    ipv6         ::1/128";
    $" enp1s0     52:54:00:00:f0:f9    ipv4         192.168.1.86/24";
    $" -          -                    ipv6         fe80::5054:ff:fef0:f9df/64" ].

(* ================================================================= *)
(** ** Name normalisation (lines 139-141) *)

(** [re.sub(pattern, repl, s)] for a pattern that is a one-character
    class [p]: every character of the class is replaced by [repl]. *)
Definition re_sub_class (p : ascii -> bool) (repl s : str) : str :=
  flat_map (fun c => if p c then repl else [c]) s.

(** [re.sub(pattern, repl, s)] for a pattern [p+]: every maximal run of
    characters of the class is replaced by one [repl].  [inrun] tells
    that the previous character belongs to a run already replaced. *)
Fixpoint re_sub_plus_from (p : ascii -> bool) (repl : str) (inrun : bool)
  (s : str) : str :=
  match s with
  | [] => []
  | c :: s' =>
      if p c
      then if inrun
           then re_sub_plus_from p repl true s'
           else repl ++ re_sub_plus_from p repl true s'
      else c :: re_sub_plus_from p repl false s'
  end.

Definition re_sub_plus (p : ascii -> bool) (repl s : str) : str :=
  re_sub_plus_from p repl false s.

(** Lines 139-141: the host name given to a VM. *)
Definition normalize (vm : str) : str :=
  let vm := lower (replace "-" "_" (replace " " "_" vm)) in
  let vm := re_sub_class is_nonword [] vm in
  let vm := re_sub_plus (Ascii.eqb "_") $"_" vm in
  vm.

(* ================================================================= *)
(** ** The run: [parse] *)

Record config : Type := {
  unraid_host : option str;
  unraid_user : option str;
  unraid_password : option str;
  vm_name_pattern : option regex;
  vm_interface_pattern : option regex;
  ansible_user : option str
}.

(** Truth value of [config.get(key)]. *)
Definition given (v : option str) : bool :=
  match v with
  | Some s => truthy s
  | None => false
  end.

(** [stdout.read().decode()] *)
Inductive read_outcome : Type :=
| ReadText (text : str)
| ReadRaises (e : exn).

(** [client.exec_command(cmd)] *)
Inductive exec_outcome : Type :=
| ExecReturns (stdout : read_outcome)
| ExecRaises (e : exn).

(** The remote side: whether [client.connect] raises, what each
    command answers, and the exit status each command ends with
    ([stdout.channel.recv_exit_status()], which the plugin never asks
    for). *)
Record host : Type := {
  connect : option exn;
  exec_command : str -> exec_outcome;
  exit_status : str -> nat
}.


Inductive session : Type := NotConnected | Open | Closed.

Definition client_connect (_ : session) : session := Open.
Definition client_close (_ : session) : session := Closed.

(** Calls made on [self.inventory]. *)
Inductive inv_call : Type :=
| AddGroup (group : str)
| AddHost (name group : str)
| SetVariable (name key value : str).

(** What a run leaves behind: how it ended, the state of the session,
    the calls the inventory accepted, in order, and the call on which
    the inventory raised, if it did. *)
Record run : Type := {
  outcome : result unit;
  client : session;
  inventory : list inv_call;
  refused : option inv_call
}.

(** A run that ends before the inventory is touched. *)
Definition ends (o : result unit) (c : session) : run :=
  {| outcome := o; client := c; inventory := []; refused := None |}.

(** [self.inventory.add_group(group)] *)
Definition add_group (group : str) (inv : list inv_call) : list inv_call :=
  inv ++ [AddGroup group].

(** [self.inventory.add_host(name, group=group)]: the inventory raises
    [AnsibleError] when the host name is the empty string. *)
Definition add_host (name group : str) (inv : list inv_call)
  : result (list inv_call) :=
  if truthy name
  then Return (inv ++ [AddHost name group])
  else Raise (AnsibleError InvalidEmptyHostName).

(** [self.inventory.set_variable(name, key, value)] *)
Definition set_variable (name key value : str) (inv : list inv_call)
  : list inv_call :=
  inv ++ [SetVariable name key value].

(** The inventory after lines 138-146, and where they stopped. *)
Record filled : Type := {
  accepted : list inv_call;
  stopped_at : option (inv_call * exn)
}.

(** The dict [vms_ips], in insertion order. *)
Definition dict := list (str * str).

Fixpoint dict_set (k v : str) (d : dict) : dict :=
  match d with
  | [] => [(k, v)]
  | (k', v') :: d' =>
      if str_eqb k' k then (k', v) :: d' else (k', v') :: dict_set k v d'
  end.

Fixpoint dict_get (k : str) (d : dict) : option str :=
  match d with
  | [] => None
  | (k', v') :: d' => if str_eqb k' k then Some v' else dict_get k d'
  end.

Definition list_command : str := $"virsh list --all --name".

(** Lines 96-106: enumeration and name filter. *)
Definition list_vms (h : host) (name_pattern : regex) : result (list str) :=
  match exec_command h list_command with
  | ExecRaises e => Raise (AnsibleError (ErrorListingVMs e))
  | ExecReturns (ReadRaises e) => Raise (AnsibleError (ErrorListingVMs e))
  | ExecReturns (ReadText out) =>
      let vms := splitlines out in
      Return (filter (fun vm => re_match name_pattern vm) vms)
  end.

Definition domifaddr_command (vm : str) : str :=
  $"virsh domifaddr '" ++ vm ++ $"' --source agent".

(** Lines 123-124. *)
Definition read_address (stdout : read_outcome) (interface_pattern : regex)
  : result (option str) :=
  match stdout with
  | ReadRaises e => Raise e
  | ReadText text => _parse_virsh_domifaddr (splitlines text) interface_pattern
  end.

(** Lines 125-132: the rest of the [try] block and its handler. *)
Definition record_address (vm : str) (r : result (option str)) (vms_ips : dict)
  : dict :=
  match r with
  | Return (Some ip) => if truthy ip then dict_set vm ip vms_ips else vms_ips
  | Return None => vms_ips
  | Raise _ => vms_ips
  end.

(** Lines 116-132: the loop over the filtered names. *)
Fixpoint resolve_all (h : host) (interface_pattern : regex) (vms : list str)
  (vms_ips : dict) : result dict :=
  match vms with
  | [] => Return vms_ips
  | vm :: rest =>
      match exec_command h (domifaddr_command vm) with
      | ExecRaises e => Raise (AnsibleError (ErrorGettingIP vm e))
      | ExecReturns stdout =>
          resolve_all h interface_pattern rest
            (record_address vm (read_address stdout interface_pattern) vms_ips)
      end
  end.

(** Lines 138-146: the loop over [vms_ips.items()]. *)
Fixpoint add_vms (user : option str) (vms_ips : dict) (inv : list inv_call)
  : filled :=
  match vms_ips with
  | [] => {| accepted := inv; stopped_at := None |}
  | (vm, ip) :: rest =>
      let vm := normalize vm in
      match add_host vm $"unraid" inv with
      | Raise e =>
          {| accepted := inv; stopped_at := Some (AddHost vm $"unraid", e) |}
      | Return inv =>
          let inv := set_variable vm $"ansible_host" ip inv in
          let inv := match user with
                     | Some u =>
                         if truthy u
                         then set_variable vm $"ansible_user" u inv
                         else inv
                     | None => inv
                     end in
          add_vms user rest inv
      end
  end.

(** Lines 136-146. *)
Definition fill_inventory (user : option str) (vms_ips : dict) : filled :=
  let inv := match vms_ips with
             | [] => []
             | _ => add_group $"unraid" []
             end in
  add_vms user vms_ips inv.

Definition name_pattern_of (cfg : config) : regex :=
  match vm_name_pattern cfg with
  | Some r => r
  | None => default_name_pattern
  end.

Definition interface_pattern_of (cfg : config) : regex :=
  match vm_interface_pattern cfg with
  | Some r => r
  | None => default_interface_pattern
  end.

(** Line 76: [_read_config_data] raises when an option declared
    required in [DOCUMENTATION] is absent from the file. *)
Definition required_options_present (cfg : config) : bool :=
  match unraid_host cfg, unraid_user cfg, unraid_password cfg with
  | Some _, Some _, Some _ => true
  | _, _, _ => false
  end.

(** [all([hostname, username, password])] *)
Definition credentials_given (cfg : config) : bool :=
  given (unraid_host cfg) && given (unraid_user cfg)
  && given (unraid_password cfg).

(** Lines 76-149: the configuration is read and checked, the session is
    opened, the VMs are listed and filtered, each one is queried, the
    inventory is filled and the session is closed. *)
Definition parse (h : host) (cfg : config) : run :=
  let client := NotConnected in
  if negb (required_options_present cfg)
  then ends (Raise AnsibleRequiredOptionError) client
  else if negb (credentials_given cfg)
  then ends (Raise (AnsibleError MissingRequiredParameters)) client
  else
    match connect h with
    | Some e => ends (Raise e) client
    | None =>
        let client := client_connect client in
        match list_vms h (name_pattern_of cfg) with
        | Raise e => ends (Raise e) client
        | Return [] => ends (Return tt) client
        | Return vms =>
            match resolve_all h (interface_pattern_of cfg) vms [] with
            | Raise e => ends (Raise e) client
            | Return vms_ips =>
                let inv := fill_inventory (ansible_user cfg) vms_ips in
                match stopped_at inv with
                | Some (call, e) =>
                    {| outcome := Raise e;
                       client := client;
                       inventory := accepted inv;
                       refused := Some call |}
                | None =>
                    {| outcome := Return tt;
                       client := client_close client;
                       inventory := accepted inv;
                       refused := None |}
                end
            end
        end
    end.

(* ================================================================= *)
(** ** Reference definitions, following the specification's wording *)

Module Reference.

(** Columns of a report line: interface name, MAC, protocol, address. *)
Definition column (n : nat) (line : str) : option str :=
  nth_error (split line) n.

(** The address without its ['/prefix-length'] suffix. *)
Fixpoint strip_prefix_length (a : str) : str :=
  match a with
  | [] => []
  | c :: a' => if Ascii.eqb c "/" then [] else c :: strip_prefix_length a'
  end.

(** The selection rule: the protocol field equals ['ipv4'] and the
    interface-name field is matched at its start by the pattern. *)
Definition selected (interface_pattern : regex) (line : str) : bool :=
  match column 0 line, column 2 line with
  | Some name, Some protocol =>
      str_eqb protocol $"ipv4" && re_match interface_pattern name
  | _, _ => false
  end.

(** The address field of the first selected line, suffix stripped. *)
Fixpoint resolve_address (lines : list str) (interface_pattern : regex)
  : option str :=
  match lines with
  | [] => None
  | line :: rest =>
      if selected interface_pattern line
      then option_map strip_prefix_length (column 3 line)
      else resolve_address rest interface_pattern
  end.

(** Step 1: every space and hyphen becomes an underscore. *)
Definition underscore_separators (s : str) : str :=
  map (fun c => if Ascii.eqb c " " || Ascii.eqb c "-" then "_"%char else c) s.

(** Step 3: keep alphanumeric characters and underscores. *)
Definition keep_identifier_chars (s : str) : str :=
  filter (fun c => isalnum c || Ascii.eqb c "_") s.

(** Step 4: a run of two or more underscores becomes one. *)
Fixpoint collapse_underscores (s : str) : str :=
  match s with
  | [] => []
  | c :: s' =>
      match s' with
      | c' :: _ =>
          if Ascii.eqb c "_" && Ascii.eqb c' "_"
          then collapse_underscores s'
          else c :: collapse_underscores s'
      | [] => [c]
      end
  end.

Definition normalize (raw_name : str) : str :=
  collapse_underscores
    (keep_identifier_chars (lower (underscore_separators raw_name))).

(** Lines of the output that are not empty. *)
Definition nonempty_lines (output : str) : list str :=
  filter truthy (splitlines output).

(** The names kept by the enumerator: the non-empty lines of the output
    that the pattern matches at their start, in order. *)
Definition list_vms (output : str) (name_pattern : regex) : list str :=
  filter (fun name => re_match name_pattern name) (nonempty_lines output).

End Reference.

(* ================================================================= *)
(** ** Selection of the address line *)

(** What the loop tests on a line: the text [ipv4] occurs in it and the
    pattern matches at the start of its first token. *)
Definition selects (interface_pattern : regex) (line : str) : Prop :=
  contains $"ipv4" line = true /\
  exists name rest, split line = name :: rest
                    /\ prefix_matches interface_pattern name.

(** What the loop returns for a selected line: its last token, up to
    the first slash. *)
Definition address_of (line : str) : str :=
  Reference.strip_prefix_length (last (split line) []).

(** The answer for a report: none when no line is selected, otherwise
    the address of the first selected line. *)
Inductive first_selected (interface_pattern : regex)
  : list str -> option str -> Prop :=
| FS_none lines :
    Forall (fun l => ~ selects interface_pattern l) lines ->
    first_selected interface_pattern lines None
| FS_some before line after :
    Forall (fun l => ~ selects interface_pattern l) before ->
    selects interface_pattern line ->
    first_selected interface_pattern (before ++ line :: after)
      (Some (address_of line)).

(** The same test, as the loop computes it. *)
Definition selectsb (interface_pattern : regex) (line : str) : bool :=
  contains $"ipv4" line &&
  match split line with
  | name :: _ => re_match interface_pattern name
  | [] => false
  end.

(* ================================================================= *)
(** ** What a run finds for one VM *)

(** The address the loop body records for [vm]: the command returned,
    its output was read, the parser returned an address, and the address
    is a non-empty string. *)
Definition address_found (h : host) (interface_pattern : regex) (vm : str)
  : option str :=
  match exec_command h (domifaddr_command vm) with
  | ExecReturns stdout =>
      match read_address stdout interface_pattern with
      | Return (Some ip) => if truthy ip then Some ip else None
      | Return None => None
      | Raise _ => None
      end
  | ExecRaises _ => None
  end.

(* ================================================================= *)
(** ** Normal forms of the normaliser *)

(** What line 139 does to one character. *)
Definition fold_char (c : ascii) : ascii :=
  lower_char (if Ascii.eqb (if Ascii.eqb c " " then "_"%char else c) "-"
              then "_"%char
              else if Ascii.eqb c " " then "_"%char else c).

(** Line 141, and its loop started inside or outside a run. *)
Definition squeeze_from : bool -> str -> str :=
  re_sub_plus_from (Ascii.eqb "_") $"_".
Definition squeeze : str -> str := re_sub_plus (Ascii.eqb "_") $"_".

(** No underscore follows an underscore; [prev] tells that the
    character before the string is one. *)
Fixpoint single_underscores (prev : bool) (s : str) : bool :=
  match s with
  | [] => true
  | c :: s' =>
      if Ascii.eqb "_" c
      then negb prev && single_underscores true s'
      else single_underscores false s'
  end.

(** Characters that the first two steps leave alone and the third keeps. *)
Definition settled (c : ascii) : Prop :=
  fold_char c = c /\ is_word c = true.

(** Every entry of the dict is an address found for its VM. *)
Definition sound (h : host) (interface_pattern : regex) (d : dict) : Prop :=
  forall k v, In (k, v) d -> address_found h interface_pattern k = Some v.

(** A string without line boundary. *)
Definition one_line (s : str) : bool :=
  forallb (fun c => negb (is_linebreak c)) s.

(* ================================================================= *)
(** ** [verify_file] (lines 56-61) *)

(** [s.endswith(suffix)] *)
Definition endswith (suffix s : str) : bool :=
  (List.length suffix <=? List.length s)
  && str_eqb (skipn (List.length s - List.length suffix) s) suffix.

(** [s.endswith((suffix1, suffix2, ...))] *)
Definition endswith_any (suffixes : list str) (s : str) : bool :=
  existsb (fun suffix => endswith suffix s) suffixes.

Definition config_file_suffixes : list str :=
  [ $"unraid_vm_inventory.yml"; $"unraid_vm_inventory.yaml" ].

(** [base_verify_file] is [BaseInventoryPlugin.verify_file], the check
    of the framework the plugin extends. *)
Definition verify_file (base_verify_file : str -> bool) (path : str) : bool :=
  let valid := false in
  if base_verify_file path
  then if endswith_any config_file_suffixes path then true else valid
  else valid.

(* ================================================================= *)
(** ** Reading a run's inventory *)

(** The calls the inventory receives for one entry of [vms_ips] whose
    host name it accepts. *)
Definition add_vm (user : option str) (entry : str * str) : list inv_call :=
  let vm := normalize (fst entry) in
  [AddHost vm $"unraid"; SetVariable vm $"ansible_host" (snd entry)]
  ++ match user with
     | Some u => if truthy u then [SetVariable vm $"ansible_user" u] else []
     | None => []
     end.

(** The inventory accepts the host of this entry. *)
Definition named (entry : str * str) : bool := truthy (normalize (fst entry)).

(** The entries up to the first one whose host the inventory refuses. *)
Fixpoint accepted_entries (d : dict) : dict :=
  match d with
  | [] => []
  | entry :: rest => if named entry then entry :: accepted_entries rest else []
  end.

(** The call of line 137. *)
Definition group_call (d : dict) : list inv_call :=
  match d with
  | [] => []
  | _ => [AddGroup $"unraid"]
  end.

(** The calls made on the inventory, the refused one included. *)
Definition calls_made (r : run) : list inv_call :=
  inventory r ++ match refused r with
                 | Some call => [call]
                 | None => []
                 end.

(** The run from line 136 on, for a dict of addresses: the inventory
    accepts every host and the session is closed, or it refuses the
    first empty host name and the run stops there. *)
Definition filled_run (user : option str) (d : dict) : run :=
  if forallb named d
  then {| outcome := Return tt;
          client := Closed;
          inventory := group_call d ++ flat_map (add_vm user) d;
          refused := None |}
  else {| outcome := Raise (AnsibleError InvalidEmptyHostName);
          client := Open;
          inventory := group_call d
                       ++ flat_map (add_vm user) (accepted_entries d);
          refused := Some (AddHost [] $"unraid") |}.

(** The names up to the first one whose identifier is empty. *)
Fixpoint until_unnamed (vms : list str) : list str :=
  match vms with
  | [] => []
  | vm :: rest =>
      if truthy (normalize vm) then vm :: until_unnamed rest else []
  end.

(** The names passed to [add_host], in call order. *)
Definition added_hosts (calls : list inv_call) : list str :=
  flat_map (fun call => match call with
                        | AddHost name _ => [name]
                        | _ => []
                        end) calls.

(** The keys of a dict, in insertion order. *)
Definition keys (d : dict) : list str := map fst d.

(** The elements of [l] not in [seen], each kept at its first place. *)
Fixpoint first_occurrences_from (seen l : list str) : list str :=
  match l with
  | [] => []
  | x :: l' =>
      if existsb (str_eqb x) seen
      then first_occurrences_from seen l'
      else x :: first_occurrences_from (seen ++ [x]) l'
  end.

Definition first_occurrences (l : list str) : list str :=
  first_occurrences_from [] l.

Definition has_address (h : host) (interface_pattern : regex) (vm : str)
  : bool :=
  match address_found h interface_pattern vm with
  | Some _ => true
  | None => false
  end.

(** One entry per VM of the list that has an address. *)
Definition entries (h : host) (interface_pattern : regex) (vms : list str)
  : dict :=
  flat_map (fun vm => match address_found h interface_pattern vm with
                      | Some ip => [(vm, ip)]
                      | None => []
                      end) vms.

(** A report line in the layout of the sample: when the text [ipv4]
    occurs in it, it has the four columns and [ipv4] is the protocol;
    otherwise its protocol column is not [ipv4]. *)
Definition regular_line (line : str) : Prop :=
  if contains $"ipv4" line
  then exists name mac address, split line = [name; mac; $"ipv4"; address]
  else Reference.column 2 line <> Some $"ipv4".

(** A character an identifier is made of: a word character that
    lower-casing leaves alone. *)
Definition identifier_char (c : ascii) : bool :=
  is_word c && Ascii.eqb (lower_char c) c.

(** Nowhere in the string does an underscore follow an underscore. *)
Definition no_double_underscore (s : str) : Prop :=
  forall a b, s <> a ++ "_"%char :: "_"%char :: b.

(* ================================================================= *)
(** ** Inputs used in examples *)

(** A report line whose interface is named [enipv4x] and whose protocol
    is [ipv6]. *)
Definition misleading_report : list str :=
  [ $" enipv4x    52:54:00:aa:bb:cc    ipv6         fe80::1/64" ].

Definition newline : ascii := "010".

Definition unlines (lines : list str) : str :=
  flat_map (fun l => l ++ [newline]) lines.

(** A configuration with credentials and no optional setting. *)
Definition plain_config : config :=
  {| unraid_host := Some $"tower";
     unraid_user := Some $"root";
     unraid_password := Some $"secret";
     vm_name_pattern := None;
     vm_interface_pattern := None;
     ansible_user := None |}.

(** A host that accepts the connection, lists [listing] and answers the
    address query of each VM with [report]. *)
Definition host_with (listing : str) (report : str -> exec_outcome) : host :=
  {| connect := None;
     exec_command := fun cmd =>
       if str_eqb cmd list_command
       then ExecReturns (ReadText listing)
       else report cmd;
     exit_status := fun _ => 0 |}.

Definition no_report (_ : str) : exec_outcome := ExecReturns (ReadText []).

(** [virsh list --all --name] ends its output with an empty line. *)
Definition blank_line_host : host :=
  host_with (unlines [ $"vm1"; $""; $"vm2" ]) no_report.

(** No VM is defined on the host. *)
Definition no_vm_host : host := host_with [] no_report.

(** The enumeration command cannot be run. *)
Definition unlistable_host : host :=
  {| connect := None;
     exec_command := fun _ => ExecRaises (RemoteError $"channel closed");
     exit_status := fun _ => 0 |}.

(** Three VMs: [web-1] reports the sample table, the output of [db]
    cannot be read, and [cache] reports only a loopback address. *)
Definition three_vm_report (cmd : str) : exec_outcome :=
  if str_eqb cmd (domifaddr_command $"web-1")
  then ExecReturns (ReadText (unlines sample_report))
  else if str_eqb cmd (domifaddr_command $"db")
  then ExecReturns (ReadRaises (RemoteError $"invalid start byte"))
  else ExecReturns
         (ReadText (unlines [ $" lo  00:00:00:00:00:00  ipv4  127.0.0.1/8" ])).

Definition three_vm_host : host :=
  host_with (unlines [ $"web-1"; $"db"; $"cache" ]) three_vm_report.

(** As [three_vm_host], but the address query of [db] cannot be run. *)
Definition broken_query_report (cmd : str) : exec_outcome :=
  if str_eqb cmd (domifaddr_command $"db")
  then ExecRaises (RemoteError $"channel closed")
  else three_vm_report cmd.

Definition broken_query_host : host :=
  host_with (unlines [ $"web-1"; $"db"; $"cache" ]) broken_query_report.

(** One VM, whose report is [misleading_report]. *)
Definition misleading_host : host :=
  host_with (unlines [ $"vm1" ])
    (fun _ => ExecReturns (ReadText (unlines misleading_report))).

(** Credentials with an empty password. *)
Definition empty_password_config : config :=
  {| unraid_host := Some $"tower";
     unraid_user := Some $"root";
     unraid_password := Some $"";
     vm_name_pattern := None;
     vm_interface_pattern := None;
     ansible_user := None |}.

(** [web-1] is listed twice, and [web 1] gets the same identifier. *)
Definition repeated_vm_host : host :=
  host_with (unlines [ $"web-1"; $"web 1"; $"web-1" ])
    (fun _ => ExecReturns (ReadText (unlines sample_report))).

(** A login user for the VMs is configured. *)
Definition user_config : config :=
  {| unraid_host := Some $"tower";
     unraid_user := Some $"root";
     unraid_password := Some $"secret";
     vm_name_pattern := None;
     vm_interface_pattern := None;
     ansible_user := Some $"admin" |}.

(** The password is absent from the configuration file. *)
Definition absent_password_config : config :=
  {| unraid_host := Some $"tower";
     unraid_user := Some $"root";
     unraid_password := None;
     vm_name_pattern := None;
     vm_interface_pattern := None;
     ansible_user := None |}.

(** Three VMs reporting the sample table; the second is named [!!!]. *)
Definition nameless_vm_host : host :=
  host_with (unlines [ $"web-1"; $"!!!"; $"db2" ])
    (fun _ => ExecReturns (ReadText (unlines sample_report))).

(* ================================================================= *)
(** ** The matcher decides prefix matching *)

Section Matcher.

Lemma matches_nil_nullable r s :
  matches r s -> s = [] -> nullable r = true.
Proof.
  induction 1; intros E; simpl; try reflexivity; try discriminate E.
  - apply app_eq_nil in E as [-> ->]. now rewrite IHmatches1, IHmatches2.
  - now rewrite IHmatches.
  - rewrite IHmatches by assumption. apply orb_true_r.
Qed.

Lemma nullable_matches_nil r : nullable r = true -> matches r [].
Proof.
  induction r; simpl; intros E; try discriminate.
  - constructor.
  - apply andb_true_iff in E as [E1 E2].
    change (@nil ascii) with (@nil ascii ++ []). constructor; auto.
  - apply orb_true_iff in E as [E | E].
    + apply M_AltL; auto.
    + apply M_AltR; auto.
  - constructor.
Qed.

Lemma nullable_spec r : nullable r = true <-> matches r [].
Proof.
  split; [apply nullable_matches_nil |].
  intros M. now apply (matches_nil_nullable M).
Qed.

(** A non-empty word of [Star r] starts with a non-empty word of [r]. *)
Lemma star_cons r w :
  matches (Star r) w -> forall c s, w = c :: s ->
  exists s1 s2, s = s1 ++ s2 /\ matches r (c :: s1) /\ matches (Star r) s2.
Proof.
  intros M. remember (Star r) as q eqn:Q.
  induction M; try discriminate Q; intros c s E.
  - discriminate E.
  - injection Q as ->. destruct s1 as [| a s1].
    + simpl in E. apply (IHM2 eq_refl _ _ E).
    + simpl in E. injection E as -> <-. now exists s1, s2.
Qed.

Lemma deriv_sound c r s : matches (deriv c r) s -> matches r (c :: s).
Proof.
  revert s. induction r; simpl; intros s M.
  - inversion M.
  - inversion M.
  - destruct (p c) eqn:P; inversion M; subst. now constructor.
  - destruct (nullable r1) eqn:N.
    + inversion M as [| | | ? ? ? M1 | ? ? ? M2 | |]; subst.
      * inversion M1; subst.
        change (c :: s1 ++ s2) with ((c :: s1) ++ s2). constructor; auto.
      * change (c :: s) with ([] ++ c :: s). constructor; auto.
        now apply nullable_matches_nil.
    + inversion M; subst.
      change (c :: s1 ++ s2) with ((c :: s1) ++ s2). constructor; auto.
  - inversion M; subst; [apply M_AltL | apply M_AltR]; auto.
  - inversion M; subst.
    change (c :: s1 ++ s2) with ((c :: s1) ++ s2). constructor; auto.
Qed.

Lemma seq_cons r1 r2 w :
  matches (Seq r1 r2) w -> forall c s, w = c :: s ->
  (matches r1 [] /\ matches r2 (c :: s)) \/
  (exists s1 s2, s = s1 ++ s2 /\ matches r1 (c :: s1) /\ matches r2 s2).
Proof.
  intros M. remember (Seq r1 r2) as q eqn:Q.
  destruct M as [| | q1 q2 s1 s2 M1 M2 | | | |]; try discriminate Q.
  injection Q as -> ->. intros c s E. destruct s1 as [| a s1].
  - simpl in E. subst s2. now left.
  - simpl in E. injection E as -> <-. right. now exists s1, s2.
Qed.

Lemma deriv_complete c r s : matches r (c :: s) -> matches (deriv c r) s.
Proof.
  revert s. induction r; simpl; intros s M.
  - inversion M.
  - inversion M.
  - inversion M as [| q a P | | | | |]; subst. rewrite P. constructor.
  - destruct (seq_cons M eq_refl) as [[M1 M2] | (s1 & s2 & -> & M1 & M2)].
    + rewrite (matches_nil_nullable M1 eq_refl). apply M_AltR; auto.
    + destruct (nullable r1); [apply M_AltL |]; constructor; auto.
  - inversion M; subst; [apply M_AltL | apply M_AltR]; auto.
  - destruct (star_cons M eq_refl) as (s1 & s2 & -> & M1 & M2).
    constructor; auto.
Qed.

Lemma deriv_spec c r s : matches (deriv c r) s <-> matches r (c :: s).
Proof. split; [apply deriv_sound | apply deriv_complete]. Qed.

(** [re_match] is true exactly when the pattern matches a prefix. *)
Lemma re_match_spec r s : re_match r s = true <-> prefix_matches r s.
Proof.
  revert r. induction s as [| c s IH]; intros r; simpl.
  - rewrite orb_false_r, nullable_spec. split.
    + intros M. now exists [], [].
    + intros (p & t & E & M). symmetry in E.
      apply app_eq_nil in E as [-> _]. exact M.
  - rewrite orb_true_iff, nullable_spec, IH. split.
    + intros [M | (p & t & -> & M)].
      * now exists [], (c :: s).
      * exists (c :: p), t. split; [reflexivity | now apply deriv_spec].
    + intros (p & t & E & M). destruct p as [| a p].
      * now left.
      * simpl in E. injection E as <- ->. right.
        exists p, t. split; [reflexivity | now apply deriv_spec].
Qed.

End Matcher.

(* ================================================================= *)
(** ** Tokens and fields *)

Section Tokens.

Lemma startswith_cons a sub s :
  startswith (a :: sub) s = true -> exists s', s = a :: s'.
Proof.
  destruct s as [| b s]; simpl; [discriminate |].
  intros E. apply andb_true_iff in E as [E _].
  apply Ascii.eqb_eq in E as ->. now exists s.
Qed.

Lemma contains_In a sub s : contains (a :: sub) s = true -> In a s.
Proof.
  induction s as [| b s IH]; intros E.
  - simpl in E. discriminate.
  - cbn [contains] in E. apply orb_true_iff in E as [E | E].
    + apply startswith_cons in E as [s' E]. injection E as -> _. now left.
    + right. auto.
Qed.

Lemma split_from_nil cur s :
  split_from cur s = [] -> cur = [] /\ forallb isspace s = true.
Proof.
  revert cur. induction s as [| c s IH]; intros cur; simpl.
  - destruct cur; [auto | discriminate].
  - destruct (isspace c) eqn:W.
    + destruct cur; [| discriminate]. intros E.
      destruct (IH _ E) as [_ F]. auto.
    + intros E. destruct (IH _ E) as [N _].
      destruct cur; discriminate.
Qed.

(** A line with a character that is not white space has a token. *)
Lemma split_has_token c line :
  In c line -> isspace c = false -> split line <> [].
Proof.
  intros I W E. apply split_from_nil in E as [_ F].
  rewrite forallb_forall in F. rewrite (F _ I) in W. discriminate.
Qed.

Lemma ipv4_line_has_token line :
  contains $"ipv4" line = true -> split line <> [].
Proof.
  intros C. apply contains_In in C.
  eapply split_has_token; [exact C | reflexivity].
Qed.

Lemma first_item_cons (A : Type) (l : list A) :
  l <> [] -> exists x rest, l = x :: rest /\ first_item l = Return x.
Proof. destruct l as [| x l]; [congruence |]. intros _. now exists x, l. Qed.

Lemma last_item_last (A : Type) (l : list A) (d : A) :
  l <> [] -> last_item l = Return (last l d).
Proof.
  induction l as [| x l IH]; [congruence |]. intros _.
  destruct l as [| y l]; [reflexivity |].
  change (last_item (y :: l) = Return (last (y :: l) d)).
  apply IH. discriminate.
Qed.

Lemma split_on_from_first cur s :
  first_item (split_on_from "/" cur s)
  = Return (cur ++ Reference.strip_prefix_length s).
Proof.
  revert cur. induction s as [| c s IH]; intros cur; simpl.
  - now rewrite app_nil_r.
  - destruct (Ascii.eqb c "/"); simpl.
    + now rewrite app_nil_r.
    + rewrite IH, <- app_assoc. reflexivity.
Qed.

Lemma split_on_first s :
  first_item (split_on "/" s) = Return (Reference.strip_prefix_length s).
Proof. apply split_on_from_first. Qed.

Lemma splitlines_from_one_line n :
  forall s cur : str, List.length s <= n -> one_line cur = true ->
                Forall (fun l => one_line l = true) (splitlines_from cur s).
Proof.
  induction n as [| n IH]; intros s cur Len C.
  - destruct s; [| simpl in Len; lia].
    simpl. destruct cur; repeat constructor. exact C.
  - destruct s as [| c s]; simpl in *.
    + destruct cur; repeat constructor. exact C.
    + destruct (is_linebreak c) eqn:B.
      * destruct s as [| c' s].
        -- repeat constructor. exact C.
        -- destruct ((code c =? 13) && (code c' =? 10));
             (constructor; [exact C | apply IH; [simpl in *; lia | reflexivity]]).
      * apply IH; [lia |]. unfold one_line in *.
        rewrite forallb_app, C. simpl. now rewrite B.
Qed.

Lemma splitlines_one_line s :
  Forall (fun l => one_line l = true) (splitlines s).
Proof.
  unfold splitlines.
  eapply splitlines_from_one_line; [apply Nat.le_refl | reflexivity].
Qed.

End Tokens.

(* ================================================================= *)
(** ** The loop returns the first selected line *)

Section Selection.

Variable pat : regex.

Lemma selectsb_spec line : selectsb pat line = true <-> selects pat line.
Proof.
  unfold selectsb, selects. rewrite andb_true_iff. split.
  - intros [C M]. split; [exact C |].
    destruct (split line) as [| name rest]; [discriminate |].
    exists name, rest. split; [reflexivity | now apply re_match_spec].
  - intros [C (name & rest & -> & M)]. split; [exact C |].
    now apply re_match_spec.
Qed.

Lemma parse_step_selected line rest :
  selectsb pat line = true ->
  _parse_virsh_domifaddr (line :: rest) pat = Return (Some (address_of line)).
Proof.
  unfold selectsb. intros E. apply andb_true_iff in E as [C M].
  cbn [_parse_virsh_domifaddr]. rewrite C.
  pose proof (ipv4_line_has_token _ C) as N.
  unfold address_of. rewrite (@last_item_last str (split line) [] N).
  destruct (split line) as [| name toks]; [discriminate |].
  cbn [first_item]. rewrite M. now rewrite split_on_first.
Qed.

Lemma parse_step_skipped line rest :
  selectsb pat line = false ->
  _parse_virsh_domifaddr (line :: rest) pat
  = _parse_virsh_domifaddr rest pat.
Proof.
  unfold selectsb. intros E. cbn [_parse_virsh_domifaddr].
  destruct (contains $"ipv4" line) eqn:C; [| reflexivity].
  pose proof (ipv4_line_has_token _ C) as N.
  destruct (split line) as [| name toks]; [congruence |].
  cbn [first_item]. simpl in E. now rewrite E.
Qed.

Lemma parse_none lines :
  Forall (fun l => ~ selects pat l) lines ->
  _parse_virsh_domifaddr lines pat = Return None.
Proof.
  induction 1 as [| line rest N _ IH]; [reflexivity |].
  rewrite parse_step_skipped; [exact IH |].
  destruct (selectsb pat line) eqn:E; [| reflexivity].
  apply selectsb_spec in E. contradiction.
Qed.

Lemma parse_first before line after :
  Forall (fun l => ~ selects pat l) before ->
  selects pat line ->
  _parse_virsh_domifaddr (before ++ line :: after) pat
  = Return (Some (address_of line)).
Proof.
  intros F S. induction F as [| l rest N _ IH]; simpl app.
  - apply parse_step_selected. now apply selectsb_spec.
  - rewrite parse_step_skipped; [exact IH |].
    destruct (selectsb pat l) eqn:E; [| reflexivity].
    apply selectsb_spec in E. contradiction.
Qed.

Lemma parse_first_selected lines :
  exists r, _parse_virsh_domifaddr lines pat = Return r
            /\ first_selected pat lines r.
Proof.
  induction lines as [| line rest (r & E & FS)].
  - exists None. split; [reflexivity | now constructor].
  - destruct (selectsb pat line) eqn:S.
    + exists (Some (address_of line)). split.
      * now apply parse_step_selected.
      * apply (FS_some (before := [])); [constructor |].
        now apply selectsb_spec.
    + assert (N : ~ selects pat line).
      { intros H. apply selectsb_spec in H. congruence. }
      exists r. split.
      * now rewrite parse_step_skipped.
      * destruct FS as [lines F | before l after F Sl].
        -- constructor. now constructor.
        -- apply (FS_some (before := line :: before)); [| exact Sl].
           now constructor.
Qed.

End Selection.

(* ================================================================= *)
(** ** Address selection: results *)

(** X27: what the loop computes.  For every report and every interface
    pattern, the function returns [r] exactly when [r] is the answer
    [first_selected] describes: the last whitespace token, cut at its
    first slash, of the first line in which the text [ipv4] occurs
    (anywhere in the line, by the test of line 165) and whose first
    whitespace token is matched at its start by the pattern; [None]
    when there is no such line. *)
Theorem parse_virsh_domifaddr_first_selected :
  forall (lines : list str) (interface_pattern : regex) (r : option str),
    _parse_virsh_domifaddr lines interface_pattern = Return r
    <-> first_selected interface_pattern lines r.
Proof.
  intros lines pat r. split.
  - intros E. destruct (parse_first_selected pat lines) as (r' & E' & FS).
    rewrite E in E'. injection E' as ->. exact FS.
  - intros [ls F | before line after F S].
    + now apply parse_none.
    + now apply parse_first.
Qed.

(** C8: on the sample table of the docstring and the pattern [en\w+]
    the function returns [192.168.1.86]; the only line the loop selects
    is the [enp1s0] one: the header, the rule, the [lo] line and both
    [ipv6] lines are passed over. *)
Theorem parse_virsh_domifaddr_sample :
  _parse_virsh_domifaddr sample_report default_interface_pattern
  = Return (Some $"192.168.1.86")
  /\ map (selectsb default_interface_pattern) sample_report
     = [false; false; false; false; true; false].
Proof. split; vm_compute; reflexivity. Qed.

(** C10: a line containing [ipv4] has at least one whitespace token, so
    neither [splitted_line[0]] nor [splitted_line[-1]] raises, and for
    every list of lines and every pattern the function returns an
    address or [None]. *)
Theorem parse_virsh_domifaddr_total :
  (forall line, contains $"ipv4" line = true ->
     exists name field, first_item (split line) = Return name
                        /\ last_item (split line) = Return field)
  /\ (forall (lines : list str) (interface_pattern : regex),
        exists r : option str,
          _parse_virsh_domifaddr lines interface_pattern = Return r).
Proof.
  split.
  - intros line C. pose proof (ipv4_line_has_token _ C) as N.
    destruct (first_item_cons N) as (name & rest & _ & E).
    exists name, (last (split line) []). split; [exact E |].
    now apply last_item_last.
  - intros lines pat.
    destruct (parse_first_selected pat lines) as (r & E & _). now exists r.
Qed.

(* ================================================================= *)
(** ** Enumeration: results *)

Example blank_line_host_listing :
  list_vms blank_line_host default_name_pattern
  = Return [ $"vm1"; $""; $"vm2" ].
Proof. vm_compute. reflexivity. Qed.

(** C2, as stated, fails: the output [vm1], empty line, [vm2] filtered
    by the default pattern keeps the empty line, which the stated
    enumeration discards. *)
Lemma list_vms_keeps_empty_line :
  list_vms blank_line_host default_name_pattern
  <> Return (Reference.list_vms (unlines [ $"vm1"; $""; $"vm2" ])
               default_name_pattern).
Proof. vm_compute. discriminate. Qed.

(** C2 (amended): when the enumeration command returns the text [out],
    the enumeration step splits [out] into lines (none of the names
    holds a line boundary) and returns the lines that the pattern
    matches at their start, in their original order; an empty line is
    kept exactly when the pattern matches the empty string. *)
Theorem list_vms_filters_lines :
  forall (h : host) (name_pattern : regex) (out : str),
    exec_command h list_command = ExecReturns (ReadText out) ->
    exists vms,
      list_vms h name_pattern = Return vms
      /\ vms = filter (fun vm => re_match name_pattern vm) (splitlines out)
      /\ (forall vm, In vm vms <->
                     In vm (splitlines out) /\ prefix_matches name_pattern vm)
      /\ (In [] vms <-> In [] (splitlines out) /\ matches name_pattern [])
      /\ Forall (fun vm => one_line vm = true) vms.
Proof.
  intros h pat out E. unfold list_vms. rewrite E.
  eexists. split; [reflexivity |]. split; [reflexivity |]. split; [| split].
  - intros vm. rewrite filter_In, re_match_spec. reflexivity.
  - rewrite filter_In. simpl. rewrite orb_false_r, nullable_spec. reflexivity.
  - apply Forall_forall. intros vm I. apply filter_In in I as [I _].
    pose proof (splitlines_one_line out) as F.
    rewrite Forall_forall in F. now apply F.
Qed.

Lemma list_vms_filters_lines_witness :
  exists vms,
    list_vms blank_line_host default_name_pattern = Return vms
    /\ vms = filter (fun vm => re_match default_name_pattern vm)
               (splitlines (unlines [ $"vm1"; $""; $"vm2" ]))
    /\ (forall vm, In vm vms <->
                   In vm (splitlines (unlines [ $"vm1"; $""; $"vm2" ]))
                   /\ prefix_matches default_name_pattern vm)
    /\ (In [] vms <->
        In [] (splitlines (unlines [ $"vm1"; $""; $"vm2" ]))
        /\ matches default_name_pattern [])
    /\ Forall (fun vm => one_line vm = true) vms.
Proof.
  apply (@list_vms_filters_lines blank_line_host default_name_pattern
           (unlines [ $"vm1"; $""; $"vm2" ])).
  reflexivity.
Defined.

(* ================================================================= *)
(** ** Normalisation: characters *)

Ltac each_char c :=
  destruct c as [[] [] [] [] [] [] [] []]; vm_compute; try reflexivity.

Lemma fold_char_reference c :
  fold_char c
  = lower_char (if Ascii.eqb c " " || Ascii.eqb c "-" then "_"%char else c).
Proof. each_char c. Qed.

Lemma fold_char_idempotent c : fold_char (fold_char c) = fold_char c.
Proof. each_char c. Qed.

Lemma is_word_fold_char c :
  is_word (fold_char c) = is_word c || Ascii.eqb c " " || Ascii.eqb c "-".
Proof. each_char c. Qed.

Lemma is_word_reference c : is_word c = isalnum c || Ascii.eqb c "_".
Proof. each_char c. Qed.

Lemma underscore_fixed : fold_char "_" = "_"%char /\ is_word "_" = true.
Proof. split; reflexivity. Qed.

(* ================================================================= *)
(** ** Normalisation: strings *)

Section Normalisation.

Lemma fold_steps s :
  lower (replace "-" "_" (replace " " "_" s)) = map fold_char s.
Proof.
  unfold lower, replace. rewrite !map_map. apply map_ext.
  intros c. unfold fold_char. destruct (Ascii.eqb c " "); reflexivity.
Qed.

Lemma re_sub_nonword s : re_sub_class is_nonword [] s = filter is_word s.
Proof.
  unfold re_sub_class, is_nonword.
  induction s as [| c s IH]; [reflexivity |]. simpl.
  rewrite IH. now destruct (is_word c).
Qed.

Lemma normalize_unfold s :
  normalize s = squeeze (filter is_word (map fold_char s)).
Proof. unfold normalize. now rewrite fold_steps, re_sub_nonword. Qed.

(** Replacing runs and dropping repeated underscores agree. *)
Lemma squeeze_collapse s :
  squeeze_from false s = Reference.collapse_underscores s
  /\ Reference.collapse_underscores ("_"%char :: s)
     = "_"%char :: squeeze_from true s.
Proof.
  unfold squeeze_from.
  induction s as [| c s [IH1 IH2]]; [split; reflexivity |].
  destruct (Ascii.eqb "_" c) eqn:U.
  - apply Ascii.eqb_eq in U. subst c. split.
    + cbn [re_sub_plus_from]. rewrite Ascii.eqb_refl.
      simpl app. now rewrite IH2.
    + cbn [re_sub_plus_from]. rewrite Ascii.eqb_refl.
      rewrite <- IH2. reflexivity.
  - assert (V : Ascii.eqb c "_" = false) by now rewrite Ascii.eqb_sym.
    assert (K : Reference.collapse_underscores (c :: s)
                = c :: Reference.collapse_underscores s).
    { cbn [Reference.collapse_underscores]. rewrite V.
      destruct s; reflexivity. }
    split.
    + cbn [re_sub_plus_from]. rewrite U, IH1. now rewrite K.
    + cbn [re_sub_plus_from]. rewrite U, IH1, <- K.
      cbn [Reference.collapse_underscores]. rewrite V, andb_false_r.
      reflexivity.
Qed.

Lemma squeeze_from_single b s :
  single_underscores b (squeeze_from b s) = true.
Proof.
  unfold squeeze_from. revert b.
  induction s as [| c s IH]; intros b; [reflexivity |].
  cbn [re_sub_plus_from]. destruct (Ascii.eqb "_" c) eqn:U.
  - destruct b; [apply IH |].
    apply Ascii.eqb_eq in U. subst c. simpl app.
    cbn [single_underscores]. rewrite Ascii.eqb_refl. apply IH.
  - cbn [single_underscores]. rewrite U. apply IH.
Qed.

Lemma squeeze_from_fixed b s :
  single_underscores b s = true -> squeeze_from b s = s.
Proof.
  unfold squeeze_from. revert b.
  induction s as [| c s IH]; intros b; [reflexivity |].
  cbn [single_underscores re_sub_plus_from].
  destruct (Ascii.eqb "_" c) eqn:U.
  - destruct b; [discriminate |]. simpl. intros S.
    apply Ascii.eqb_eq in U. subst c. now rewrite IH.
  - intros S. now rewrite IH.
Qed.

Lemma squeeze_idempotent s : squeeze (squeeze s) = squeeze s.
Proof. apply (squeeze_from_fixed false), squeeze_from_single. Qed.

(** Squeezing keeps a property of characters that the underscore has. *)
Lemma squeeze_from_Forall (P : ascii -> Prop) b s :
  P "_"%char -> Forall P s -> Forall P (squeeze_from b s).
Proof.
  unfold squeeze_from. intros U F. revert b.
  induction F as [| c s Pc _ IH]; intros b; [constructor |].
  cbn [re_sub_plus_from]. destruct (Ascii.eqb "_" c).
  - destruct b; [apply IH |]. simpl app. constructor; [exact U | apply IH].
  - constructor; [exact Pc | apply IH].
Qed.

Lemma squeeze_nil s : squeeze s = [] <-> s = [].
Proof.
  split; [| now intros ->].
  unfold squeeze, re_sub_plus. destruct s as [| c s]; [reflexivity |].
  cbn [re_sub_plus_from]. destruct (Ascii.eqb "_" c); discriminate.
Qed.

Lemma filter_fold_settled s :
  Forall settled (filter is_word (map fold_char s)).
Proof.
  apply Forall_forall. intros c I.
  apply filter_In in I as [I W]. apply in_map_iff in I as (a & <- & _).
  split; [apply fold_char_idempotent | exact W].
Qed.

Lemma settled_fixed s :
  Forall settled s -> filter is_word (map fold_char s) = s.
Proof.
  induction 1 as [| c s [F W] _ IH]; [reflexivity |].
  simpl. rewrite F, W, IH. reflexivity.
Qed.

Lemma normalize_settled s : Forall settled (normalize s).
Proof.
  rewrite normalize_unfold. apply squeeze_from_Forall.
  - split; reflexivity.
  - apply filter_fold_settled.
Qed.

Lemma normalize_nil s :
  normalize s = [] <->
  forall c, In c s -> is_word c || Ascii.eqb c " " || Ascii.eqb c "-" = false.
Proof.
  rewrite normalize_unfold. fold squeeze. rewrite squeeze_nil. split.
  - intros E c I. rewrite <- is_word_fold_char.
    destruct (is_word (fold_char c)) eqn:W; [| reflexivity].
    assert (J : In (fold_char c) (filter is_word (map fold_char s))).
    { apply filter_In. split; [now apply in_map | exact W]. }
    rewrite E in J. destruct J.
  - intros H. induction s as [| c s IH]; [reflexivity |]. simpl.
    rewrite is_word_fold_char, (H c (or_introl eq_refl)).
    apply IH. intros a I. apply H. now right.
Qed.

End Normalisation.

(* ================================================================= *)
(** ** Normalisation: results *)

(** C3, as stated, fails: the raw name [!!!] has no character that
    survives, and its identifier is the empty string. *)
Lemma normalize_may_be_empty : ~ (normalize $"!!!" <> []).
Proof. intros H. apply H. vm_compute. reflexivity. Qed.

(** C3 (amended): [normalize] is a total function of the raw name, and
    the identifier is non-empty exactly when the raw name has at least
    one character that is alphanumeric, an underscore, a space or a
    hyphen. *)
Theorem normalize_nonempty_iff :
  forall raw : str,
    (exists identifier, normalize raw = identifier)
    /\ (normalize raw <> [] <->
        exists c, In c raw /\ (isalnum c = true \/ c = "_"%char
                               \/ c = " "%char \/ c = "-"%char)).
Proof.
  intros raw. split; [now exists (normalize raw) |].
  set (keeps := fun c => is_word c || Ascii.eqb c " " || Ascii.eqb c "-").
  assert (K : forall c, keeps c = true <->
                        isalnum c = true \/ c = "_"%char
                        \/ c = " "%char \/ c = "-"%char).
  { intros c. unfold keeps. rewrite is_word_reference.
    rewrite !orb_true_iff, !Ascii.eqb_eq. tauto. }
  split.
  - intros N. destruct (existsb keeps raw) eqn:E.
    + apply existsb_exists in E as (c & I & T). exists c.
      split; [exact I | now apply K].
    + exfalso. apply N, normalize_nil. intros c I.
      fold (keeps c). destruct (keeps c) eqn:T; [| reflexivity].
      assert (X : existsb keeps raw = true)
        by (apply existsb_exists; now exists c).
      congruence.
  - intros (c & I & D) E. apply K in D.
    rewrite normalize_nil in E. specialize (E c I).
    fold (keeps c) in E. congruence.
Qed.

(** C7: [normalize] is the four-step transform of the specification
    (separators to underscores, lower case, only alphanumerics and
    underscores kept, runs of underscores collapsed), and the three
    stated examples hold. *)
Theorem normalize_is_reference :
  (forall raw : str, normalize raw = Reference.normalize raw)
  /\ normalize $"My VM-1" = $"my_vm_1"
  /\ normalize $"web--app" = $"web_app"
  /\ normalize $"a!!b" = $"ab".
Proof.
  split; [| repeat split; vm_compute; reflexivity].
  intros raw. rewrite normalize_unfold.
  unfold Reference.normalize, squeeze, re_sub_plus. fold squeeze_from.
  rewrite (proj1 (squeeze_collapse _)). f_equal.
  unfold Reference.keep_identifier_chars, Reference.underscore_separators, lower.
  rewrite map_map, (map_ext fold_char _ fold_char_reference).
  apply filter_ext. intros c. apply is_word_reference.
Qed.

(** C9: normalising an identifier again changes nothing. *)
Theorem normalize_twice :
  forall x : str, normalize (normalize x) = normalize x.
Proof.
  intros x. rewrite (normalize_unfold (normalize x)).
  rewrite (settled_fixed (normalize_settled x)).
  rewrite normalize_unfold. apply squeeze_idempotent.
Qed.

(* ================================================================= *)
(** ** The dict of found addresses *)

Unset Implicit Arguments.

Section Dict.

Lemma str_eqb_eq a b : str_eqb a b = true <-> a = b.
Proof.
  unfold str_eqb. destruct (list_eq_dec ascii_dec a b); split;
    congruence.
Qed.

Lemma dict_set_In k v k0 v0 d :
  In (k, v) (dict_set k0 v0 d) -> (k, v) = (k0, v0) \/ In (k, v) d.
Proof.
  induction d as [| [k' v'] d IH]; simpl.
  - intros [E | []]. now left.
  - destruct (str_eqb k' k0) eqn:Q; simpl.
    + apply str_eqb_eq in Q. subst k'. intros [E | I]; auto.
    + intros [E | I]; auto. destruct (IH I); auto.
Qed.

Lemma dict_set_new k0 v0 d : In (k0, v0) (dict_set k0 v0 d).
Proof.
  induction d as [| [k' v'] d IH]; simpl; [now left |].
  destruct (str_eqb k' k0) eqn:Q; simpl.
  - apply str_eqb_eq in Q. subst k'. now left.
  - now right.
Qed.

Lemma dict_set_other k v k0 v0 d :
  In (k, v) d -> k <> k0 -> In (k, v) (dict_set k0 v0 d).
Proof.
  intros I N. induction d as [| [k' v'] d IH]; [destruct I |].
  simpl. destruct (str_eqb k' k0) eqn:Q; simpl.
  - apply str_eqb_eq in Q. subst k'. destruct I as [E | I]; [| now right].
    injection E as -> _. contradiction.
  - destruct I as [E | I]; [now left | right; auto].
Qed.

End Dict.

(* ================================================================= *)
(** ** The loop over the VMs *)

Section Loop.

Variable h : host.
Variable pat : regex.

Lemma record_address_found vm stdout d :
  exec_command h (domifaddr_command vm) = ExecReturns stdout ->
  record_address vm (read_address stdout pat) d
  = match address_found h pat vm with
    | Some ip => dict_set vm ip d
    | None => d
    end.
Proof.
  intros E. unfold address_found. rewrite E. unfold record_address.
  destruct (read_address stdout pat) as [[ip |] | e]; try reflexivity.
  now destruct (truthy ip).
Qed.

Lemma record_sound vm stdout d :
  exec_command h (domifaddr_command vm) = ExecReturns stdout ->
  sound h pat d -> sound h pat (record_address vm (read_address stdout pat) d).
Proof.
  intros E S. rewrite (record_address_found _ _ d E).
  destruct (address_found h pat vm) as [ip |] eqn:F; [| exact S].
  intros k v I. apply dict_set_In in I as [Q | I]; [| now apply S].
  injection Q as -> ->. exact F.
Qed.

Lemma record_keeps vm stdout d k v :
  exec_command h (domifaddr_command vm) = ExecReturns stdout ->
  sound h pat d -> In (k, v) d ->
  In (k, v) (record_address vm (read_address stdout pat) d).
Proof.
  intros E S I. rewrite (record_address_found _ _ d E).
  destruct (address_found h pat vm) as [ip |] eqn:F; [| exact I].
  destruct (list_eq_dec ascii_dec k vm) as [-> | N].
  - rewrite (S _ _ I) in F. injection F as ->. apply dict_set_new.
  - now apply dict_set_other.
Qed.

Lemma record_adds vm stdout d ip :
  exec_command h (domifaddr_command vm) = ExecReturns stdout ->
  address_found h pat vm = Some ip ->
  In (vm, ip) (record_address vm (read_address stdout pat) d).
Proof.
  intros E F. rewrite (record_address_found _ _ d E), F. apply dict_set_new.
Qed.


(** When every command can be run the loop ends, whatever the reports. *)
Lemma resolve_all_returns vms d :
  (forall x, In x vms ->
     exists stdout, exec_command h (domifaddr_command x) = ExecReturns stdout) ->
  sound h pat d ->
  exists d', resolve_all h pat vms d = Return d'
             /\ sound h pat d'
             /\ (forall k v, In (k, v) d -> In (k, v) d')
             /\ (forall vm ip, In vm vms -> address_found h pat vm = Some ip ->
                               In (vm, ip) d').
Proof.
  revert d. induction vms as [| x vms IH]; intros d R S; simpl.
  - exists d. repeat split; auto. intros vm ip [].
  - destruct (R x (or_introl eq_refl)) as [stdout X]. rewrite X.
    destruct (IH (record_address x (read_address stdout pat) d))
      as (d' & E & S' & K & A).
    + intros y I. apply R. now right.
    + now apply record_sound.
    + exists d'. split; [exact E |]. split; [exact S' |]. split.
      * intros k v I. apply K. now apply record_keeps.
      * intros vm ip [<- | I] F; [| now apply A].
        apply K. now apply record_adds.
Qed.


End Loop.

(* ================================================================= *)
(** ** The inventory and the run *)

Section Run.

Lemma add_vm_host user entry name group :
  In (AddHost name group) (add_vm user entry) <->
  name = normalize (fst entry) /\ group = $"unraid".
Proof.
  unfold add_vm. rewrite in_app_iff. simpl. split.
  - intros [[E | [E | []]] | I].
    + injection E as <- <-. auto.
    + discriminate E.
    + destruct user as [u |]; [| destruct I].
      destruct (truthy u); [| destruct I].
      destruct I as [E | []]. discriminate E.
  - intros [-> ->]. left. now left.
Qed.

Lemma forallb_named_accepted d :
  forallb named d = true -> accepted_entries d = d.
Proof.
  induction d as [| entry d IH]; [reflexivity |]. simpl.
  destruct (named entry); [| discriminate]. intros F. now rewrite IH.
Qed.

Lemma accepted_entries_incl d entry :
  In entry (accepted_entries d) -> In entry d /\ named entry = true.
Proof.
  induction d as [| e d IH]; simpl; [intros [] |].
  destruct (named e) eqn:N; [| intros []].
  intros [<- | I]; [now split; [left |] |].
  destruct (IH I). split; [now right | assumption].
Qed.

(** The loop of lines 138-146 adds the calls of the entries up to the
    first one whose host name is empty, and stops there. *)
Lemma add_vms_spec user d inv :
  add_vms user d inv
  = {| accepted := inv ++ flat_map (add_vm user) (accepted_entries d);
       stopped_at := if forallb named d
                     then None
                     else Some (AddHost [] $"unraid",
                                AnsibleError InvalidEmptyHostName) |}.
Proof.
  revert inv. induction d as [| [vm ip] d IH]; intros inv.
  - simpl. now rewrite app_nil_r.
  - cbn [add_vms accepted_entries forallb flat_map].
    unfold add_host, named. cbn [fst].
    destruct (truthy (normalize vm)) eqn:T.
    + rewrite IH. cbn [andb]. f_equal.
      unfold add_vm, set_variable. cbn [fst snd].
      destruct user as [u |]; [destruct (truthy u) |];
        now rewrite <- !app_assoc.
    + cbn [andb]. rewrite app_nil_r.
      destruct (normalize vm); [reflexivity | discriminate T].
Qed.

Lemma fill_inventory_spec user d :
  fill_inventory user d
  = {| accepted := group_call d ++ flat_map (add_vm user) (accepted_entries d);
       stopped_at := if forallb named d
                     then None
                     else Some (AddHost [] $"unraid",
                                AnsibleError InvalidEmptyHostName) |}.
Proof.
  unfold fill_inventory. rewrite add_vms_spec. now destruct d.
Qed.

Variable h : host.
Variable cfg : config.
Hypothesis credentials : credentials_given cfg = true.
Hypothesis connected : connect h = None.

Lemma credentials_are_present : required_options_present cfg = true.
Proof.
  unfold credentials_given, given in credentials.
  unfold required_options_present.
  destruct (unraid_host cfg); [| discriminate credentials].
  destruct (unraid_user cfg);
    [| rewrite andb_false_r in credentials; discriminate credentials].
  destruct (unraid_password cfg); [reflexivity |].
  rewrite andb_false_r in credentials. discriminate credentials.
Qed.

(** The run after the connection is made. *)
Lemma parse_connected :
  parse h cfg
  = match list_vms h (name_pattern_of cfg) with
    | Raise e => ends (Raise e) Open
    | Return [] => ends (Return tt) Open
    | Return vms =>
        match resolve_all h (interface_pattern_of cfg) vms [] with
        | Raise e => ends (Raise e) Open
        | Return vms_ips => filled_run (ansible_user cfg) vms_ips
        end
    end.
Proof.
  unfold parse. rewrite credentials_are_present, credentials, connected.
  cbn [negb]. destruct (list_vms h (name_pattern_of cfg)) as [[| vm vms] | e];
    try reflexivity.
  destruct (resolve_all h (interface_pattern_of cfg) (vm :: vms) [])
    as [d | e]; [| reflexivity].
  rewrite fill_inventory_spec. cbn [stopped_at accepted]. unfold filled_run.
  destruct (forallb named d) eqn:F; [| reflexivity].
  now rewrite (forallb_named_accepted d F).
Qed.

(** The early [return] of line 111: the session stays open. *)
Lemma parse_no_vms_leaves_session_open :
  list_vms h (name_pattern_of cfg) = Return [] ->
  outcome (parse h cfg) = Return tt /\ client (parse h cfg) = Open.
Proof. intros E. rewrite parse_connected, E. now split. Qed.

(** A run that raises after connecting leaves the session open. *)
Lemma parse_raise_leaves_session_open e :
  outcome (parse h cfg) = Raise e -> client (parse h cfg) = Open.
Proof.
  rewrite parse_connected.
  destruct (list_vms h (name_pattern_of cfg)) as [[| vm vms] | e'];
    try reflexivity.
  destruct (resolve_all h (interface_pattern_of cfg) (vm :: vms) [])
    as [d | e'']; [| reflexivity].
  unfold filled_run. destruct (forallb named d); [discriminate | reflexivity].
Qed.





End Run.



(* ================================================================= *)
(** ** The run: results *)

(** C1: the code takes an [ipv6] line for an [ipv4] one.  The only line
    of [misleading_report] has the protocol field [ipv6]; the text
    [ipv4] occurs in its interface name, so the test of line 165 lets
    it through and the function returns the IPv6 address, where the
    selection rule finds no line. *)
Theorem ipv6_line_is_taken_for_ipv4 :
  map (Reference.column 2) misleading_report = [ Some $"ipv6" ]
  /\ Reference.resolve_address misleading_report default_interface_pattern
     = None
  /\ _parse_virsh_domifaddr misleading_report default_interface_pattern
     = Return (Some $"fe80::1").
Proof. repeat split; vm_compute; reflexivity. Qed.

(** C4: the code leaves the session open.  On a host without VMs the
    run returns at line 111, before [client.close()] at line 148; a run
    stopped by a failed command leaves it open as well. *)
Theorem session_left_open :
  parse no_vm_host plain_config
  = {| outcome := Return tt; client := Open; inventory := [];
       refused := None |}
  /\ client (parse unlistable_host plain_config) = Open
  /\ client (parse broken_query_host plain_config) = Open.
Proof. repeat split; vm_compute; reflexivity. Qed.



(** C6: the code adds a VM whose report has no line of protocol [ipv4].
    No line of [misleading_report] meets the selection rule, yet an
    address is found for the VM, the IPv6 one, and the VM is added to
    the inventory with it.  The defect is the one of C1. *)
Theorem vm_without_ipv4_line_is_added :
  forallb (fun l => negb (Reference.selected default_interface_pattern l))
    misleading_report = true
  /\ address_found misleading_host default_interface_pattern $"vm1"
     = Some $"fe80::1"
  /\ parse misleading_host plain_config
     = {| outcome := Return tt;
          client := Closed;
          inventory := [ AddGroup $"unraid"; AddHost $"vm1" $"unraid";
                         SetVariable $"vm1" $"ansible_host" $"fe80::1" ];
          refused := None |}.
Proof. repeat split; vm_compute; reflexivity. Qed.

(* ================================================================= *)
(** ** Which files the plugin accepts *)

Section VerifyFile.

Lemma endswith_spec suffix s :
  endswith suffix s = true <-> exists front, s = front ++ suffix.
Proof.
  unfold endswith. rewrite andb_true_iff, Nat.leb_le, str_eqb_eq. split.
  - intros [_ E].
    exists (firstn (List.length s - List.length suffix) s).
    rewrite <- E at 2. symmetry. apply firstn_skipn.
  - intros [front ->]. rewrite length_app. split; [lia |].
    replace (List.length front + List.length suffix - List.length suffix)
      with (List.length front + 0) by lia.
    rewrite skipn_app, Nat.add_0_r, skipn_all.
    replace (List.length front - List.length front) with 0 by lia.
    reflexivity.
Qed.

(** X1: a path is accepted exactly when the framework accepts it and it
    ends with [unraid_vm_inventory.yml] or [unraid_vm_inventory.yaml];
    what stands before the suffix is free. *)
Theorem verify_file_accepts :
  forall (base_verify_file : str -> bool) (path : str),
    verify_file base_verify_file path = true <->
    base_verify_file path = true
    /\ exists front, path = front ++ $"unraid_vm_inventory.yml"
                     \/ path = front ++ $"unraid_vm_inventory.yaml".
Proof.
  intros base path. unfold verify_file, endswith_any, config_file_suffixes.
  cbn [existsb]. rewrite orb_false_r. split.
  - destruct (base path); [| discriminate]. intros E. split; [reflexivity |].
    destruct (endswith $"unraid_vm_inventory.yml" path) eqn:Y.
    + apply endswith_spec in Y as [front ->]. exists front. now left.
    + destruct (endswith $"unraid_vm_inventory.yaml" path) eqn:Z;
        [| discriminate E].
      apply endswith_spec in Z as [front ->]. exists front. now right.
  - intros [-> [front [-> | ->]]].
    + rewrite (proj2 (endswith_spec _ _)); [reflexivity | now exists front].
    + rewrite (proj2 (endswith_spec $"unraid_vm_inventory.yaml" _));
        [| now exists front].
      now rewrite orb_true_r.
Qed.

End VerifyFile.

(* ================================================================= *)
(** ** More on the address parser *)

Section Parser.

Variable pat : regex.

Lemma strip_prefix_length_no_slash s :
  ~ In "/"%char (Reference.strip_prefix_length s).
Proof.
  induction s as [| c s IH]; simpl; [tauto |].
  destruct (Ascii.eqb c "/") eqn:E; simpl; [tauto |].
  intros [Q | I]; [| contradiction].
  subst c. discriminate E.
Qed.

Lemma parse_step_cases line rest :
  _parse_virsh_domifaddr (line :: rest) pat
  = if selectsb pat line
    then Return (Some (address_of line))
    else _parse_virsh_domifaddr rest pat.
Proof.
  destruct (selectsb pat line) eqn:S.
  - now apply parse_step_selected.
  - now apply parse_step_skipped.
Qed.

Lemma selectsb_needs_ipv4 line :
  contains $"ipv4" line = false -> selectsb pat line = false.
Proof. unfold selectsb. now intros ->. Qed.

End Parser.

(** X2: an address returned by the parser holds no slash. *)
Theorem parsed_address_has_no_slash :
  forall (lines : list str) (interface_pattern : regex) (address : str),
    _parse_virsh_domifaddr lines interface_pattern = Return (Some address) ->
    ~ In "/"%char address.
Proof.
  intros lines pat address E.
  induction lines as [| line rest IH]; [discriminate E |].
  rewrite parse_step_cases in E. destruct (selectsb pat line).
  - injection E as <-. apply strip_prefix_length_no_slash.
  - now apply IH.
Qed.

Lemma parsed_address_has_no_slash_witness :
  ~ In "/"%char $"192.168.1.86".
Proof.
  apply (parsed_address_has_no_slash sample_report default_interface_pattern).
  reflexivity.
Defined.

(** X3: lines in which the text [ipv4] does not occur play no part:
    the parser gives the same answer once they are removed. *)
Theorem parse_ignores_lines_without_ipv4 :
  forall (lines : list str) (interface_pattern : regex),
    _parse_virsh_domifaddr lines interface_pattern
    = _parse_virsh_domifaddr (filter (contains $"ipv4") lines)
        interface_pattern.
Proof.
  intros lines pat. induction lines as [| line rest IH]; [reflexivity |].
  cbn [filter]. destruct (contains $"ipv4" line) eqn:C.
  - rewrite !parse_step_cases, IH. reflexivity.
  - rewrite parse_step_cases, (selectsb_needs_ipv4 pat line C). exact IH.
Qed.

(** X4: of two reports put one after the other, the parser answers for
    the first when it holds an address, and for the second otherwise. *)
Theorem parse_of_appended_reports :
  forall (first second : list str) (interface_pattern : regex),
    _parse_virsh_domifaddr (first ++ second) interface_pattern
    = match _parse_virsh_domifaddr first interface_pattern with
      | Return (Some address) => Return (Some address)
      | _ => _parse_virsh_domifaddr second interface_pattern
      end.
Proof.
  intros first second pat. induction first as [| line rest IH]; [reflexivity |].
  cbn [app]. rewrite !parse_step_cases.
  destruct (selectsb pat line); [reflexivity | exact IH].
Qed.

(** X5: on a report in the layout of the sample (a line mentions
    [ipv4] only as the protocol of a four-column line) the parser
    returns what the column rule gives: the address column, without
    prefix length, of the first line of protocol [ipv4] whose interface
    name the pattern matches. *)
Theorem parse_agrees_on_regular_reports :
  forall (lines : list str) (interface_pattern : regex),
    Forall regular_line lines ->
    _parse_virsh_domifaddr lines interface_pattern
    = Return (Reference.resolve_address lines interface_pattern).
Proof.
  intros lines pat F. induction F as [| line rest R _ IH]; [reflexivity |].
  rewrite parse_step_cases. cbn [Reference.resolve_address].
  unfold regular_line in R. destruct (contains $"ipv4" line) eqn:C.
  - unfold selectsb, address_of, Reference.selected, Reference.column.
    rewrite C. destruct R as (name & mac & address & ->). simpl.
    destruct (re_match pat name); [reflexivity | exact IH].
  - rewrite (selectsb_needs_ipv4 pat line C).
    assert (N : Reference.selected pat line = false).
    { unfold Reference.selected.
      destruct (Reference.column 0 line) as [name |]; [| reflexivity].
      destruct (Reference.column 2 line) as [protocol |]; [| reflexivity].
      destruct (str_eqb protocol $"ipv4") eqn:Q; [| reflexivity].
      apply str_eqb_eq in Q. subst protocol. now destruct R. }
    rewrite N. exact IH.
Qed.

Lemma parse_agrees_on_regular_reports_witness :
  _parse_virsh_domifaddr sample_report default_interface_pattern
  = Return (Reference.resolve_address sample_report default_interface_pattern).
Proof.
  apply parse_agrees_on_regular_reports.
  repeat constructor; unfold regular_line; simpl;
    try discriminate; now eexists _, _, _.
Defined.

(* ================================================================= *)
(** ** More on normalisation *)

Section Identifiers.

Lemma identifier_char_settled c :
  identifier_char c = true <-> settled c.
Proof.
  unfold identifier_char, settled. rewrite andb_true_iff, Ascii.eqb_eq.
  split.
  - intros [W L]. split; [| exact W]. revert W L.
    each_char c; intros; congruence.
  - intros [F W]. split; [exact W |]. revert F W.
    each_char c; intros; congruence.
Qed.

Lemma identifier_char_ascii c :
  identifier_char c = true -> (code c <? 128) = true ->
  between 97 122 c || between 48 57 c || Ascii.eqb c "_" = true.
Proof. each_char c; intros; congruence. Qed.

Lemma starts_no_underscore_cons c s :
  (forall t, c :: s <> "_"%char :: t) <-> c <> "_"%char.
Proof.
  split.
  - intros H E. subst c. now apply (H s).
  - intros N t E. injection E as E _. contradiction.
Qed.

Lemma no_double_cons_underscore s :
  no_double_underscore ("_"%char :: s) <->
  (forall t, s <> "_"%char :: t) /\ no_double_underscore s.
Proof.
  unfold no_double_underscore. split.
  - intros H. split.
    + intros t E. subst s. now apply (H [] t).
    + intros a b E. subst s. now apply (H ("_"%char :: a) b).
  - intros [S N] a b E. destruct a as [| x a]; simpl in E.
    + injection E as E. now apply (S b).
    + injection E as _ E. now apply (N a b).
Qed.

Lemma no_double_cons_other c s :
  c <> "_"%char ->
  (no_double_underscore (c :: s) <-> no_double_underscore s).
Proof.
  unfold no_double_underscore. intros C. split.
  - intros H a b E. subst s. now apply (H (c :: a) b).
  - intros N a b E. destruct a as [| x a]; simpl in E.
    + injection E as E _. contradiction.
    + injection E as _ E. now apply (N a b).
Qed.

Lemma single_underscores_spec prev s :
  single_underscores prev s = true <->
  (prev = true -> forall t, s <> "_"%char :: t) /\ no_double_underscore s.
Proof.
  revert prev. induction s as [| c s IH]; intros prev.
  - simpl. split; [| reflexivity]. intros _. split.
    + intros _ t E. discriminate E.
    + intros a b E. now destruct a.
  - cbn [single_underscores]. destruct (Ascii.eqb "_" c) eqn:U.
    + apply Ascii.eqb_eq in U. subst c.
      rewrite andb_true_iff, IH, no_double_cons_underscore, negb_true_iff.
      split.
      * intros [P [S N]]. split; [| split; [now apply S | exact N]].
        intros Q. congruence.
      * intros [P [S N]]. split; [| split; [now intros _ | exact N]].
        destruct prev; [| reflexivity]. now destruct (P eq_refl s).
    + assert (C : c <> "_"%char).
      { intros E. subst c. discriminate U. }
      rewrite IH, (no_double_cons_other c s C). split.
      * intros [_ N]. split; [| exact N].
        intros _. now apply starts_no_underscore_cons.
      * intros [_ N]. split; [| exact N]. intros Q. discriminate Q.
Qed.

Lemma squeeze_from_length b s :
  List.length (squeeze_from b s) <= List.length s.
Proof.
  unfold squeeze_from. revert b.
  induction s as [| c s IH]; intros b; [reflexivity |].
  cbn [re_sub_plus_from]. destruct (Ascii.eqb "_" c).
  - destruct b; specialize (IH true); simpl in *; lia.
  - specialize (IH false). simpl in *. lia.
Qed.


End Identifiers.

(** X6: every identifier is made of word characters that lower-casing
    leaves alone (among the characters below 128: lower-case letters,
    digits and the underscore), and nowhere has two underscores in a
    row. *)
Theorem normalize_alphabet :
  forall raw : str,
    Forall (fun c => identifier_char c = true
                     /\ ((code c <? 128) = true ->
                         between 97 122 c || between 48 57 c
                         || Ascii.eqb c "_" = true))
      (normalize raw)
    /\ no_double_underscore (normalize raw).
Proof.
  intros raw. split.
  - pose proof (normalize_settled raw) as S.
    rewrite Forall_forall in *. intros c I.
    assert (K : identifier_char c = true)
      by now apply identifier_char_settled, S.
    split; [exact K | now apply identifier_char_ascii].
  - rewrite normalize_unfold.
    apply (single_underscores_spec false), (squeeze_from_single false).
Qed.

(** X7: the names normalisation leaves unchanged are exactly the
    strings made of such characters without two underscores in a row. *)
Theorem normalize_fixed_points :
  forall s : str,
    normalize s = s <->
    Forall (fun c => identifier_char c = true) s /\ no_double_underscore s.
Proof.
  intros s. split.
  - intros E. rewrite <- E. split.
    + pose proof (normalize_settled s) as S.
      rewrite Forall_forall in *. intros c I.
      now apply identifier_char_settled, S.
    + rewrite normalize_unfold.
      apply (single_underscores_spec false), (squeeze_from_single false).
  - intros [F N]. rewrite normalize_unfold.
    assert (S : Forall settled s).
    { rewrite Forall_forall in *. intros c I.
      now apply identifier_char_settled, F. }
    rewrite (settled_fixed S).
    apply (squeeze_from_fixed false), single_underscores_spec.
    split; [intros Q; discriminate Q | exact N].
Qed.

(** X8: an identifier is never longer than the raw name. *)
Theorem normalize_length :
  forall raw : str, List.length (normalize raw) <= List.length raw.
Proof.
  intros raw. rewrite normalize_unfold.
  pose proof (squeeze_from_length false (filter is_word (map fold_char raw))).
  pose proof (filter_length_le is_word (map fold_char raw)) as L.
  rewrite length_map in L. unfold squeeze, re_sub_plus. unfold squeeze_from in *.
  lia.
Qed.


(* ================================================================= *)
(** ** The dict in insertion order *)

Section Order.

Lemma seen_spec x seen : existsb (str_eqb x) seen = true <-> In x seen.
Proof.
  rewrite existsb_exists. split.
  - intros (y & I & E). apply str_eqb_eq in E. now subst y.
  - intros I. exists x. split; [exact I | now apply str_eqb_eq].
Qed.

Lemma dict_set_absent k v d :
  ~ In k (keys d) -> dict_set k v d = d ++ [(k, v)].
Proof.
  induction d as [| [k' v'] d IH]; simpl; [reflexivity |].
  intros N. destruct (str_eqb k' k) eqn:Q.
  - apply str_eqb_eq in Q. subst k'. destruct N. now left.
  - rewrite IH; [reflexivity |]. intros I. apply N. now right.
Qed.

Lemma dict_set_present k v d :
  In k (keys d) -> (forall v', In (k, v') d -> v' = v) ->
  dict_set k v d = d.
Proof.
  induction d as [| [k' v'] d IH]; simpl; [intros [] |].
  intros I V. destruct (str_eqb k' k) eqn:Q.
  - apply str_eqb_eq in Q. subst k'.
    now rewrite (V v' (or_introl eq_refl)).
  - rewrite IH; [reflexivity | | intros w J; apply V; now right].
    destruct I as [E | I]; [| exact I].
    subst k'. assert (T : str_eqb k k = true) by now apply str_eqb_eq.
    congruence.
Qed.

Lemma first_occurrences_from_fresh seen l x :
  In x (first_occurrences_from seen l) -> ~ In x seen /\ In x l.
Proof.
  revert seen. induction l as [| y l IH]; intros seen; simpl; [intros [] |].
  destruct (existsb (str_eqb y) seen) eqn:E.
  - intros I. destruct (IH _ I) as [N J]. auto.
  - intros [<- | I].
    + split; [| now left]. intros J. apply seen_spec in J. congruence.
    + destruct (IH _ I) as [N J]. split; [| now right].
      intros K. apply N, in_or_app. now left.
Qed.

Lemma first_occurrences_from_NoDup seen l :
  NoDup (first_occurrences_from seen l).
Proof.
  revert seen. induction l as [| y l IH]; intros seen; simpl; [constructor |].
  destruct (existsb (str_eqb y) seen); [apply IH |].
  constructor; [| apply IH].
  intros I. apply first_occurrences_from_fresh in I as [N _].
  apply N, in_or_app. right. now left.
Qed.

Lemma first_occurrences_from_complete seen l x :
  In x l -> ~ In x seen -> In x (first_occurrences_from seen l).
Proof.
  revert seen. induction l as [| y l IH]; intros seen; simpl; [intros [] |].
  intros I N. destruct (existsb (str_eqb y) seen) eqn:E.
  - apply IH; [| exact N]. destruct I as [<- | I]; [| exact I].
    apply seen_spec in E. contradiction.
  - destruct (list_eq_dec ascii_dec y x) as [Q | Q]; [now left | right].
    apply IH.
    + destruct I as [I | I]; [contradiction | exact I].
    + intros J. apply in_app_or in J as [J | [J | []]]; contradiction.
Qed.

Variable h : host.
Variable pat : regex.

Lemma resolve_all_runs vms d d' :
  resolve_all h pat vms d = Return d' ->
  forall vm, In vm vms ->
    exists stdout, exec_command h (domifaddr_command vm) = ExecReturns stdout.
Proof.
  revert d. induction vms as [| x vms IH]; intros d E vm I; [destruct I |].
  simpl in E.
  destruct (exec_command h (domifaddr_command x)) as [stdout | e] eqn:X;
    [| discriminate E].
  destruct I as [<- | I]; [now exists stdout | now apply (IH _ E)].
Qed.

(** The dict after the loop: the entries it had, then one entry for
    each new VM with an address, at the place of its first listing. *)
Lemma resolve_all_exact vms d :
  (forall x, In x vms ->
     exists stdout, exec_command h (domifaddr_command x) = ExecReturns stdout) ->
  sound h pat d ->
  resolve_all h pat vms d
  = Return (d ++ entries h pat
                   (first_occurrences_from (keys d)
                      (filter (has_address h pat) vms))).
Proof.
  revert d. induction vms as [| x vms IH]; intros d R S.
  - simpl. now rewrite app_nil_r.
  - destruct (R x (or_introl eq_refl)) as [stdout X].
    assert (R' : forall y, In y vms ->
                 exists out, exec_command h (domifaddr_command y)
                             = ExecReturns out).
    { intros y I. apply R. now right. }
    cbn [resolve_all filter]. rewrite X.
    rewrite (record_address_found h pat x stdout d X).
    unfold has_address at 1.
    destruct (address_found h pat x) as [ip |] eqn:F; [| now apply IH].
    cbn [first_occurrences_from].
    destruct (existsb (str_eqb x) (keys d)) eqn:E.
    + apply seen_spec in E. rewrite dict_set_present; [now apply IH | exact E |].
      intros v I. pose proof (S x v I) as G. congruence.
    + assert (N : ~ In x (keys d)).
      { intros I. apply seen_spec in I. congruence. }
      rewrite (dict_set_absent x ip d N). rewrite IH; [| exact R' |].
      * unfold keys. rewrite map_app. simpl.
        unfold entries at 2. cbn [flat_map]. rewrite F.
        rewrite <- app_assoc. reflexivity.
      * intros k v I. apply in_app_or in I as [I | [I | []]];
          [now apply S |]. injection I as <- <-. exact F.
Qed.

Lemma keys_entries l :
  Forall (fun vm => has_address h pat vm = true) l ->
  keys (entries h pat l) = l.
Proof.
  induction 1 as [| vm l A _ IH]; [reflexivity |].
  unfold entries, has_address in *. cbn [flat_map].
  destruct (address_found h pat vm); [| discriminate A].
  simpl. f_equal. exact IH.
Qed.

End Order.

(* ================================================================= *)
(** ** The shape of the inventory *)

Section Inventory.

Variable user : option str.

Lemma added_hosts_app a b :
  added_hosts (a ++ b) = added_hosts a ++ added_hosts b.
Proof. unfold added_hosts. apply flat_map_app. Qed.

Lemma added_hosts_add_vm entry :
  added_hosts (add_vm user entry) = [normalize (fst entry)].
Proof.
  unfold add_vm. rewrite added_hosts_app. simpl.
  destruct user as [u |]; [| reflexivity]. now destruct (truthy u).
Qed.

Lemma added_hosts_flat d :
  added_hosts (flat_map (add_vm user) d) = map normalize (keys d).
Proof.
  induction d as [| entry d IH]; [reflexivity |].
  cbn [flat_map]. rewrite added_hosts_app, added_hosts_add_vm, IH.
  reflexivity.
Qed.

Lemma added_hosts_group d : added_hosts (group_call d) = [].
Proof. now destruct d. Qed.

Lemma no_group_in_hosts d g : ~ In (AddGroup g) (flat_map (add_vm user) d).
Proof.
  rewrite in_flat_map. intros (entry & _ & I). unfold add_vm in I.
  apply in_app_or in I as [[E | [E | []]] | I]; try discriminate E.
  destruct user as [u |]; [| destruct I].
  destruct (truthy u); [| destruct I].
  destruct I as [E | []]. discriminate E.
Qed.

(** What a call accepted after line 137 can be. *)
Lemma host_call call d :
  In call (group_call d ++ flat_map (add_vm user) (accepted_entries d)) ->
  call = AddGroup $"unraid"
  \/ exists vm ip,
       In (vm, ip) d /\ normalize vm <> []
       /\ (call = AddHost (normalize vm) $"unraid"
           \/ call = SetVariable (normalize vm) $"ansible_host" ip
           \/ exists u, user = Some u /\ truthy u = true
                        /\ call = SetVariable (normalize vm) $"ansible_user" u).
Proof.
  intros I. apply in_app_or in I as [I | I].
  - left. destruct d; [destruct I |]. now destruct I as [<- | []].
  - right. apply in_flat_map in I as ([vm ip] & J & I).
    apply accepted_entries_incl in J as [J N].
    exists vm, ip. split; [exact J |]. split.
    { unfold named in N. cbn [fst] in N. now destruct (normalize vm). }
    unfold add_vm in I. cbn [fst snd] in I.
    apply in_app_or in I as [[<- | [<- | []]] | I]; auto.
    right. right. destruct user as [u |]; [| destruct I].
    destruct (truthy u) eqn:T; [| destruct I].
    destruct I as [<- | []]. now exists u.
Qed.

(** The calls made for an accepted entry. *)
Lemma entry_calls d vm ip :
  In (vm, ip) (accepted_entries d) ->
  let calls :=
    group_call d ++ flat_map (add_vm user) (accepted_entries d) in
  In (AddHost (normalize vm) $"unraid") calls
  /\ In (SetVariable (normalize vm) $"ansible_host" ip) calls
  /\ (forall u, user = Some u -> truthy u = true ->
                In (SetVariable (normalize vm) $"ansible_user" u) calls).
Proof.
  intros I calls. unfold calls.
  assert (A : forall call, In call (add_vm user (vm, ip)) ->
                           In call (group_call d
                                    ++ flat_map (add_vm user)
                                         (accepted_entries d))).
  { intros call J. apply in_or_app. right. apply in_flat_map.
    now exists (vm, ip). }
  repeat split.
  - apply A. unfold add_vm. apply in_or_app. left. now left.
  - apply A. unfold add_vm. apply in_or_app. left. right. now left.
  - intros u U T. apply A. unfold add_vm. apply in_or_app. right.
    rewrite U, T. now left.
Qed.

Lemma filled_run_inventory d :
  inventory (filled_run user d)
  = group_call d ++ flat_map (add_vm user) (accepted_entries d).
Proof.
  unfold filled_run. destruct (forallb named d) eqn:F; [| reflexivity].
  cbn [inventory]. now rewrite (forallb_named_accepted d F).
Qed.

Lemma keys_accepted_entries d :
  keys (accepted_entries d) = until_unnamed (keys d).
Proof.
  induction d as [| [vm ip] d IH]; [reflexivity |].
  cbn [accepted_entries keys map until_unnamed fst]. unfold named. cbn [fst].
  destruct (truthy (normalize vm)); [| reflexivity].
  cbn [map fst]. f_equal. exact IH.
Qed.

End Inventory.

Section AnyRun.

Variable h : host.
Variable cfg : config.

(** Every run either ends before the inventory is touched, the session
    not closed, or fills the inventory from the dict of a loop that ran
    to its end. *)
Lemma parse_cases :
  (inventory (parse h cfg) = [] /\ refused (parse h cfg) = None
   /\ client (parse h cfg) <> Closed)
  \/ exists vm vms d,
       credentials_given cfg = true /\ connect h = None
       /\ list_vms h (name_pattern_of cfg) = Return (vm :: vms)
       /\ resolve_all h (interface_pattern_of cfg) (vm :: vms) [] = Return d
       /\ parse h cfg = filled_run (ansible_user cfg) d.
Proof.
  destruct (credentials_given cfg) eqn:C.
  2: { left. unfold parse. rewrite C.
       destruct (negb (required_options_present cfg));
         repeat split; discriminate. }
  destruct (connect h) as [e |] eqn:N.
  { left. unfold parse. rewrite C, N.
    destruct (negb (required_options_present cfg));
      repeat split; discriminate. }
  rewrite (parse_connected h cfg C N).
  destruct (list_vms h (name_pattern_of cfg)) as [[| vm vms] | e].
  - left. repeat split; discriminate.
  - destruct (resolve_all h (interface_pattern_of cfg) (vm :: vms) [])
      as [d | e] eqn:E.
    + right. exists vm, vms, d. repeat split; try reflexivity. exact E.
    + left. repeat split; discriminate.
  - left. repeat split; discriminate.
Qed.

Lemma parse_dict_sound vm vms d :
  resolve_all h (interface_pattern_of cfg) (vm :: vms) [] = Return d ->
  sound h (interface_pattern_of cfg) d.
Proof.
  intros E.
  destruct (resolve_all_returns h (interface_pattern_of cfg) (vm :: vms) [])
    as (d' & E' & S & _); [| intros ? ? [] |].
  - exact (resolve_all_runs h _ _ _ _ E).
  - rewrite E in E'. injection E' as <-. exact S.
Qed.

End AnyRun.

Lemma address_found_valid h pat vm ip :
  address_found h pat vm = Some ip -> ip <> [] /\ ~ In "/"%char ip.
Proof.
  unfold address_found, read_address.
  destruct (exec_command h (domifaddr_command vm)) as [[text | e] | e];
    try discriminate.
  destruct (parse_first_selected pat (splitlines text)) as (r & E & FS).
  rewrite E. destruct r as [a |]; [| discriminate].
  destruct (truthy a) eqn:T; [| discriminate]. intros Q. injection Q as <-.
  split; [now destruct a |].
  inversion FS; subst. apply strip_prefix_length_no_slash.
Qed.

Lemma normalize_normalized s : normalize (normalize s) = normalize s.
Proof.
  rewrite (normalize_unfold (normalize s)).
  rewrite (settled_fixed (normalize_settled s)).
  rewrite normalize_unfold. apply squeeze_idempotent.
Qed.

(* ================================================================= *)
(** ** The run: more results *)

(** X11: the session is never opened exactly when a credential is
    missing or the connection is refused, and it is closed at the end
    exactly when the run returns normally after listing at least one
    VM; in every other run it is left open. *)
Theorem session_state_after_run :
  forall (h : host) (cfg : config),
    (client (parse h cfg) = NotConnected <->
     credentials_given cfg = false \/ connect h <> None)
    /\ (client (parse h cfg) = Closed <->
        outcome (parse h cfg) = Return tt
        /\ exists vm vms,
             list_vms h (name_pattern_of cfg) = Return (vm :: vms)).
Proof.
  intros h cfg.
  destruct (credentials_given cfg) eqn:C.
  2: { unfold parse. rewrite C.
       destruct (negb (required_options_present cfg)); cbn.
       - split; split; intros H; [now left | reflexivity | discriminate H |].
         destruct H as [H _]. discriminate H.
       - split; split; intros H; [now left | reflexivity | discriminate H |].
         destruct H as [H _]. discriminate H. }
  destruct (connect h) as [e |] eqn:N.
  { unfold parse. rewrite C, N.
    destruct (negb (required_options_present cfg)); cbn.
    - split; split; intros H;
        [right; discriminate | reflexivity | discriminate H |].
      destruct H as [H _]. discriminate H.
    - split; split; intros H;
        [right; discriminate | reflexivity | discriminate H |].
      destruct H as [H _]. discriminate H. }
  rewrite (parse_connected h cfg C N).
  destruct (list_vms h (name_pattern_of cfg)) as [[| vm vms] | e] eqn:L.
  - cbn. split; split; intros H; try discriminate H.
    + destruct H as [H | H]; [discriminate H | now destruct H].
    + destruct H as (_ & vm & vms & H). discriminate H.
  - destruct (resolve_all h (interface_pattern_of cfg) (vm :: vms) [])
      as [d | e].
    + unfold filled_run. destruct (forallb named d); cbn.
      * split; split; intros H; try discriminate H.
        -- destruct H as [H | H]; [discriminate H | now destruct H].
        -- split; [reflexivity | now exists vm, vms].
        -- reflexivity.
      * split; split; intros H; try discriminate H.
        -- destruct H as [H | H]; [discriminate H | now destruct H].
        -- destruct H as [H _]. discriminate H.
    + cbn. split; split; intros H; try discriminate H.
      * destruct H as [H | H]; [discriminate H | now destruct H].
      * destruct H as [H _]. discriminate H.
  - cbn. split; split; intros H; try discriminate H.
    + destruct H as [H | H]; [discriminate H | now destruct H].
    + destruct H as [H _]. discriminate H.
Qed.



(** X13: when the host, the user or the password is absent from the
    configuration, reading the configuration raises; when the three are
    there but one is the empty string, the run raises [AnsibleError] for
    missing parameters.  In both cases no connection is made, whatever
    the host would answer. *)
Theorem missing_credentials_stop_the_run :
  forall (h : host) (cfg : config),
    (unraid_host cfg = None \/ unraid_user cfg = None
     \/ unraid_password cfg = None ->
     parse h cfg = {| outcome := Raise AnsibleRequiredOptionError;
                      client := NotConnected;
                      inventory := [];
                      refused := None |})
    /\ (forall host user password,
          unraid_host cfg = Some host -> unraid_user cfg = Some user ->
          unraid_password cfg = Some password ->
          host = [] \/ user = [] \/ password = [] ->
          parse h cfg
          = {| outcome := Raise (AnsibleError MissingRequiredParameters);
               client := NotConnected;
               inventory := [];
               refused := None |}).
Proof.
  intros h cfg. split.
  - intros A. unfold parse.
    assert (R : required_options_present cfg = false).
    { unfold required_options_present.
      destruct A as [-> | [-> | ->]]; [reflexivity | |].
      - now destruct (unraid_host cfg).
      - now destruct (unraid_host cfg), (unraid_user cfg). }
    now rewrite R.
  - intros host user password H U P E. unfold parse.
    assert (R : required_options_present cfg = true).
    { unfold required_options_present. now rewrite H, U, P. }
    assert (C : credentials_given cfg = false).
    { unfold credentials_given. rewrite H, U, P. cbn [given].
      destruct E as [-> | [-> | ->]]; cbn [truthy];
        rewrite ?andb_false_r; reflexivity. }
    now rewrite R, C.
Qed.

Section FilledInventory.

Variable h : host.
Variable cfg : config.
Hypothesis credentials : credentials_given cfg = true.
Hypothesis connected : connect h = None.

(** The run in which every command runs. *)
Lemma parse_exact vms :
  list_vms h (name_pattern_of cfg) = Return vms ->
  (forall vm, In vm vms ->
     exists stdout,
       exec_command h (domifaddr_command vm) = ExecReturns stdout) ->
  let d := entries h (interface_pattern_of cfg)
             (first_occurrences
                (filter (has_address h (interface_pattern_of cfg)) vms)) in
  outcome (parse h cfg) = outcome (filled_run (ansible_user cfg) d)
  /\ inventory (parse h cfg) = inventory (filled_run (ansible_user cfg) d)
  /\ refused (parse h cfg) = refused (filled_run (ansible_user cfg) d).
Proof.
  intros L R d. rewrite (parse_connected h cfg credentials connected), L.
  destruct vms as [| vm vms]; [now repeat split |].
  rewrite (resolve_all_exact h _ (vm :: vms) [] R); [| intros k v []].
  now repeat split.
Qed.

End FilledInventory.

Lemma entries_cons h pat vm ip l :
  address_found h pat vm = Some ip ->
  entries h pat (vm :: l) = (vm, ip) :: entries h pat l.
Proof. intros F. unfold entries. cbn [flat_map]. now rewrite F. Qed.

Lemma accepted_entries_entries h pat l :
  Forall (fun vm => has_address h pat vm = true) l ->
  accepted_entries (entries h pat l) = entries h pat (until_unnamed l)
  /\ (forallb named (entries h pat l) = true <-> until_unnamed l = l).
Proof.
  induction 1 as [| vm l H _ [IH1 IH2]]; [now split |].
  unfold has_address in H.
  destruct (address_found h pat vm) as [ip |] eqn:F; [| discriminate H].
  rewrite (entries_cons h pat vm ip l F).
  cbn [accepted_entries forallb until_unnamed]. unfold named. cbn [fst].
  destruct (truthy (normalize vm)).
  - cbn [andb]. rewrite (entries_cons h pat vm ip _ F), IH1, IH2.
    split; [reflexivity |].
    split; [now intros -> | intros Q; now injection Q].
  - cbn [andb]. split; [reflexivity |]. split; discriminate.
Qed.

(** X15: when every command runs, the inventory holds the group call
    and then the calls for the distinct listed VMs that have an address,
    taken in the order of first listing, each with the address found
    for it, up to the first of them whose identifier is empty; the run
    returns normally exactly when there is no such VM. *)
Theorem inventory_of_a_complete_run :
  forall (h : host) (cfg : config) (vms : list str),
    credentials_given cfg = true ->
    connect h = None ->
    list_vms h (name_pattern_of cfg) = Return vms ->
    (forall vm, In vm vms ->
       exists stdout,
         exec_command h (domifaddr_command vm) = ExecReturns stdout) ->
    let pat := interface_pattern_of cfg in
    let found := first_occurrences (filter (has_address h pat) vms) in
    inventory (parse h cfg)
    = group_call (entries h pat found)
      ++ flat_map (add_vm (ansible_user cfg))
           (entries h pat (until_unnamed found))
    /\ (outcome (parse h cfg) = Return tt <-> until_unnamed found = found)
    /\ keys (entries h pat found) = found
    /\ NoDup found
    /\ (forall vm, In vm found <-> In vm vms /\ has_address h pat vm = true).
Proof.
  intros h cfg vms C N L R pat found.
  assert (M : forall vm, In vm found <->
                         In vm vms /\ has_address h pat vm = true).
  { intros vm. unfold found, first_occurrences. rewrite <- filter_In. split.
    - intros I. now apply first_occurrences_from_fresh in I.
    - intros I. apply first_occurrences_from_complete; [exact I | intros []]. }
  assert (A : Forall (fun vm => has_address h pat vm = true) found).
  { apply Forall_forall. intros vm I. now apply M. }
  destruct (accepted_entries_entries h pat found A) as [K1 K2].
  destruct (parse_exact h cfg C N vms L R) as (O & I & _).
  fold pat in O, I. fold found in O, I.
  split; [now rewrite I, filled_run_inventory, K1 |].
  split.
  { rewrite O, <- K2. unfold filled_run.
    destruct (forallb named (entries h pat found)); cbn [outcome].
    - tauto.
    - split; discriminate. }
  split; [now apply keys_entries |].
  split; [apply first_occurrences_from_NoDup | exact M].
Qed.

Lemma inventory_of_a_complete_run_witness :
  inventory (parse nameless_vm_host plain_config)
  = [ AddGroup $"unraid";
      AddHost $"web_1" $"unraid";
      SetVariable $"web_1" $"ansible_host" $"192.168.1.86" ]
  /\ outcome (parse nameless_vm_host plain_config) <> Return tt.
Proof.
  destruct (inventory_of_a_complete_run nameless_vm_host plain_config
              [ $"web-1"; $"!!!"; $"db2" ] eq_refl eq_refl eq_refl)
    as (I & O & _).
  - intros vm [<- | [<- | [<- | []]]]; eexists; reflexivity.
  - split; [rewrite I; reflexivity |].
    intros E. apply O in E. vm_compute in E. discriminate E.
Defined.

(** X16: when every command runs, the hosts are added in the order in
    which their VMs are first listed, up to the first VM whose
    identifier is empty; a VM listed twice is added once, and VMs with
    the same identifier are each added under it. *)
Theorem hosts_added_in_listing_order :
  forall (h : host) (cfg : config) (vms : list str),
    credentials_given cfg = true ->
    connect h = None ->
    list_vms h (name_pattern_of cfg) = Return vms ->
    (forall vm, In vm vms ->
       exists stdout,
         exec_command h (domifaddr_command vm) = ExecReturns stdout) ->
    added_hosts (inventory (parse h cfg))
    = map normalize
        (until_unnamed
           (first_occurrences
              (filter (has_address h (interface_pattern_of cfg)) vms))).
Proof.
  intros h cfg vms C N L R.
  destruct (parse_exact h cfg C N vms L R) as (_ & I & _).
  rewrite I, filled_run_inventory, added_hosts_app, added_hosts_group.
  cbn [app]. rewrite added_hosts_flat, keys_accepted_entries.
  do 2 f_equal. apply keys_entries, Forall_forall. intros vm J.
  unfold first_occurrences in J.
  apply first_occurrences_from_fresh in J as [_ J].
  now apply filter_In in J.
Qed.

Lemma hosts_added_in_listing_order_witness :
  added_hosts (inventory (parse repeated_vm_host plain_config))
  = [ $"web_1"; $"web_1" ].
Proof.
  rewrite (hosts_added_in_listing_order repeated_vm_host plain_config
             [ $"web-1"; $"web 1"; $"web-1" ] eq_refl eq_refl eq_refl).
  - reflexivity.
  - intros vm [<- | [<- | [<- | []]]]; eexists; reflexivity.
Defined.

(** X17: the calls a run makes on the inventory are either none at all
    or start with the creation of the group [unraid], which is created
    once and only when at least one call to add a host follows. *)
Theorem group_created_once_when_needed :
  forall (h : host) (cfg : config),
    calls_made (parse h cfg) = []
    \/ exists rest,
         calls_made (parse h cfg) = AddGroup $"unraid" :: rest
         /\ added_hosts rest <> []
         /\ forall g, ~ In (AddGroup g) rest.
Proof.
  intros h cfg. unfold calls_made.
  destruct (parse_cases h cfg)
    as [(I & R & _) | (vm & vms & d & _ & _ & _ & _ & P)].
  - left. now rewrite I, R.
  - rewrite P. unfold filled_run. destruct d as [| entry d]; [now left |].
    right. destruct (forallb named (entry :: d)) eqn:F;
      cbn [inventory refused group_call app].
    + exists (flat_map (add_vm (ansible_user cfg)) (entry :: d)).
      rewrite app_nil_r. split; [reflexivity |]. split.
      * rewrite added_hosts_flat. discriminate.
      * intros g. apply no_group_in_hosts.
    + exists (flat_map (add_vm (ansible_user cfg))
                (accepted_entries (entry :: d))
              ++ [AddHost [] $"unraid"]).
      split; [reflexivity |]. split.
      * rewrite added_hosts_app. intros E.
        apply app_eq_nil in E as [_ E]. discriminate E.
      * intros g I. apply in_app_or in I as [I | [I | []]];
          [now apply no_group_in_hosts in I | discriminate I].
Qed.

(** X18: when a non-empty login user is configured, every host added
    gets it as its [ansible_user] variable; when none is configured, or
    the empty string, no host gets that variable. *)
Theorem login_user_on_every_host_or_none :
  forall (h : host) (cfg : config),
    match ansible_user cfg with
    | Some (c :: u) =>
        forall name,
          In name (added_hosts (inventory (parse h cfg))) ->
          In (SetVariable name $"ansible_user" (c :: u))
            (inventory (parse h cfg))
    | _ =>
        forall name value,
          ~ In (SetVariable name $"ansible_user" value)
              (inventory (parse h cfg))
    end.
Proof.
  intros h cfg.
  destruct (parse_cases h cfg)
    as [(I & _) | (vm & vms & d & _ & _ & _ & _ & P)].
  - rewrite I.
    destruct (ansible_user cfg) as [[| c u] |];
      [intros ? ? [] | intros ? [] | intros ? ? []].
  - rewrite P, filled_run_inventory.
    destruct (ansible_user cfg) as [[| c u] |] eqn:U.
    + intros name value I. apply host_call in I as [E | (k & v & _ & _ & I)];
        [discriminate E |].
      destruct I as [E | [E | (w & Q & T & _)]]; try discriminate E.
      injection Q as <-. discriminate T.
    + intros name I. rewrite added_hosts_app, added_hosts_group in I.
      cbn [app] in I. rewrite added_hosts_flat in I.
      apply in_map_iff in I as (k & <- & I).
      apply in_map_iff in I as ([k' v] & <- & I).
      now apply (entry_calls (Some (c :: u)) d k' v I).
    + intros name value I. apply host_call in I as [E | (k & v & _ & _ & I)];
        [discriminate E |].
      destruct I as [E | [E | (w & Q & _)]]; discriminate.
Qed.

(** X19: every host is added to the group [unraid] and gets an
    [ansible_host] variable, and every such variable holds a non-empty
    address without slash. *)
Theorem every_host_has_an_address :
  forall (h : host) (cfg : config),
    (forall name group,
        In (AddHost name group) (inventory (parse h cfg)) ->
        group = $"unraid"
        /\ exists ip,
             In (SetVariable name $"ansible_host" ip)
               (inventory (parse h cfg)))
    /\ (forall name ip,
          In (SetVariable name $"ansible_host" ip) (inventory (parse h cfg)) ->
          ip <> [] /\ ~ In "/"%char ip
          /\ In (AddHost name $"unraid") (inventory (parse h cfg))).
Proof.
  intros h cfg.
  destruct (parse_cases h cfg)
    as [(I & _) | (vm & vms & d & _ & _ & _ & E & P)].
  - rewrite I. split; intros ? ? [].
  - rewrite P, filled_run_inventory.
    pose proof (parse_dict_sound h cfg vm vms d E) as S.
    assert (A : forall call,
               In call (group_call d
                        ++ flat_map (add_vm (ansible_user cfg))
                             (accepted_entries d)) ->
               call = AddGroup $"unraid"
               \/ exists k v,
                    In (k, v) (accepted_entries d)
                    /\ In call (add_vm (ansible_user cfg) (k, v))).
    { intros call I. apply in_app_or in I as [I | I].
      - left. destruct d; [destruct I |]. now destruct I as [<- | []].
      - right. apply in_flat_map in I as ([k v] & J & I). now exists k, v. }
    split.
    + intros name group I. destruct (A _ I) as [Q | (k & v & J & K)];
        [discriminate Q |].
      apply add_vm_host in K as [-> ->]. split; [reflexivity |].
      exists v. now apply (entry_calls (ansible_user cfg) d k v J).
    + intros name ip I. destruct (A _ I) as [Q | (k & v & J & K)];
        [discriminate Q |].
      unfold add_vm in K. cbn [fst snd] in K.
      apply in_app_or in K as [[Q | [Q | []]] | K]; [discriminate Q | |].
      * injection Q as <- <-.
        destruct (accepted_entries_incl d (k, v) J) as [Jd _].
        destruct (address_found_valid h _ k v (S k v Jd)) as [NE NS].
        split; [exact NE |]. split; [exact NS |].
        now apply (entry_calls (ansible_user cfg) d k v J).
      * destruct (ansible_user cfg) as [u |]; [| destruct K].
        destruct (truthy u); [| destruct K].
        destruct K as [Q | []]. discriminate Q.
Qed.

(** X20: every host name given to the inventory is a normalised
    identifier: normalising it again leaves it unchanged. *)
Theorem host_names_are_normalised :
  forall (h : host) (cfg : config) (name : str),
    In name (added_hosts (inventory (parse h cfg))) ->
    normalize name = name.
Proof.
  intros h cfg name I.
  destruct (parse_cases h cfg)
    as [(E & _) | (vm & vms & d & _ & _ & _ & _ & P)].
  - rewrite E in I. destruct I.
  - rewrite P, filled_run_inventory, added_hosts_app, added_hosts_group in I.
    cbn [app] in I. rewrite added_hosts_flat in I.
    apply in_map_iff in I as (k & <- & _). apply normalize_normalized.
Qed.

Lemma host_names_are_normalised_witness :
  normalize $"web_1" = $"web_1".
Proof.
  apply (host_names_are_normalised three_vm_host plain_config).
  now left.
Defined.

(** X28: a VM whose report cannot be read, or has no selected line, has
    no address; and the loop over the VMs, when every command runs,
    builds the same dict as if the VMs without address were not listed:
    they change nothing and stop nothing. *)
Theorem vm_without_address_is_skipped :
  forall (h : host) (interface_pattern : regex),
    (forall vm e,
        exec_command h (domifaddr_command vm) = ExecReturns (ReadRaises e) ->
        has_address h interface_pattern vm = false)
    /\ (forall vm text,
          exec_command h (domifaddr_command vm) = ExecReturns (ReadText text) ->
          Forall (fun l => ~ selects interface_pattern l) (splitlines text) ->
          has_address h interface_pattern vm = false)
    /\ (forall vms d,
          (forall vm, In vm vms ->
             exists stdout,
               exec_command h (domifaddr_command vm) = ExecReturns stdout) ->
          resolve_all h interface_pattern vms d
          = resolve_all h interface_pattern
              (filter (has_address h interface_pattern) vms) d).
Proof.
  intros h pat. split; [| split].
  - intros vm e E. unfold has_address, address_found. now rewrite E.
  - intros vm text E F. unfold has_address, address_found. rewrite E.
    cbn [read_address]. now rewrite (@parse_none pat _ F).
  - intros vms. induction vms as [| vm vms IH]; intros d R; [reflexivity |].
    destruct (R vm (or_introl eq_refl)) as [stdout X].
    assert (R' : forall x, In x vms ->
                 exists out, exec_command h (domifaddr_command x)
                             = ExecReturns out).
    { intros x I. apply R. now right. }
    cbn [filter]. destruct (has_address h pat vm) eqn:A.
    + cbn [resolve_all]. rewrite X. now apply IH.
    + cbn [resolve_all]. rewrite X.
      rewrite (record_address_found h pat vm stdout d X).
      unfold has_address in A.
      destruct (address_found h pat vm); [discriminate A | now apply IH].
Qed.

(* ================================================================= *)
(** ** Patterns *)

Section Patterns.

Lemma prefix_matches_seq_sym p r s :
  prefix_matches (Seq (Sym p) r) s <->
  exists c s', s = c :: s' /\ p c = true /\ prefix_matches r s'.
Proof.
  split.
  - intros (front & t & -> & M).
    inversion M as [| | r1 r2 s1 s2 M1 M2 | | | |]; subst.
    inversion M1 as [| q c P | | | | |]; subst.
    exists c, (s2 ++ t). split; [reflexivity |]. split; [exact P |].
    now exists s2, t.
  - intros (c & s' & -> & P & front & t & -> & M).
    exists (c :: front), t. split; [reflexivity |].
    change (c :: front) with ([c] ++ front). constructor; [| exact M].
    now constructor.
Qed.

Lemma prefix_matches_star r s : prefix_matches (Star r) s.
Proof. exists [], s. split; [reflexivity | constructor]. Qed.

End Patterns.

(** X21: when no name pattern is configured, every line of the listing
    is taken as a VM name, empty lines included. *)
Theorem default_name_pattern_keeps_every_line :
  forall (h : host) (cfg : config) (out : str),
    vm_name_pattern cfg = None ->
    exec_command h list_command = ExecReturns (ReadText out) ->
    list_vms h (name_pattern_of cfg) = Return (splitlines out).
Proof.
  intros h cfg out P E. unfold list_vms, name_pattern_of. rewrite E, P.
  f_equal. induction (splitlines out) as [| line rest IH]; [reflexivity |].
  cbn [filter]. replace (re_match default_name_pattern line) with true.
  - now f_equal.
  - symmetry. apply re_match_spec, prefix_matches_star.
Qed.

Lemma default_name_pattern_keeps_every_line_witness :
  list_vms blank_line_host (name_pattern_of plain_config)
  = Return (splitlines (unlines [ $"vm1"; $""; $"vm2" ])).
Proof.
  apply default_name_pattern_keeps_every_line; reflexivity.
Defined.

(** X22: the default interface pattern accepts exactly the names that
    start with [en] followed by a word character; so with it a line is
    selected only if its first token is such a name. *)
Theorem default_interface_pattern_accepts :
  (forall name : str,
      re_match default_interface_pattern name = true <->
      exists c rest,
        name = "e"%char :: "n"%char :: c :: rest /\ is_word c = true)
  /\ (forall line : str,
        selectsb default_interface_pattern line = true ->
        exists c rest tokens,
          split line = ("e"%char :: "n"%char :: c :: rest) :: tokens
          /\ is_word c = true).
Proof.
  assert (A : forall name : str,
             re_match default_interface_pattern name = true <->
             exists c rest,
               name = "e"%char :: "n"%char :: c :: rest /\ is_word c = true).
  { intros name. rewrite re_match_spec.
    unfold default_interface_pattern, Chr, Plus, Word.
    rewrite prefix_matches_seq_sym. split.
    - intros (a & s1 & -> & Ea & M). apply Ascii.eqb_eq in Ea. subst a.
      apply prefix_matches_seq_sym in M as (b & s2 & -> & Eb & M).
      apply Ascii.eqb_eq in Eb. subst b.
      apply prefix_matches_seq_sym in M as (c & s3 & -> & W & _).
      now exists c, s3.
    - intros (c & rest & -> & W).
      exists "e"%char, ("n"%char :: c :: rest).
      split; [reflexivity |]. split; [reflexivity |].
      apply prefix_matches_seq_sym. exists "n"%char, (c :: rest).
      split; [reflexivity |]. split; [reflexivity |].
      apply prefix_matches_seq_sym. exists c, rest.
      split; [reflexivity |]. split; [exact W |]. apply prefix_matches_star. }
  split; [exact A |].
  intros line S. unfold selectsb in S. apply andb_true_iff in S as [_ S].
  destruct (split line) as [| name tokens]; [discriminate S |].
  apply A in S as (c & rest & -> & W). now exists c, rest, tokens.
Qed.

(* ================================================================= *)
(** ** Splitting and searching text *)

Section Text.

Lemma split_from_tokens cur s :
  forallb (fun c => negb (isspace c)) cur = true ->
  Forall (fun tok => tok <> []
                     /\ forallb (fun c => negb (isspace c)) tok = true)
    (split_from cur s)
  /\ List.concat (split_from cur s) = cur ++ filter (fun c => negb (isspace c)) s.
Proof.
  revert cur. induction s as [| c s IH]; intros cur C.
  - simpl. rewrite app_nil_r. destruct cur as [| a cur].
    + split; [constructor | reflexivity].
    + split; [| simpl; now rewrite app_nil_r].
      repeat constructor; [discriminate | exact C].
  - cbn [split_from filter]. destruct (isspace c) eqn:W; cbn [negb].
    + destruct (IH [] eq_refl) as [F E]. destruct cur as [| a cur].
      * split; [exact F | exact E].
      * split.
        -- constructor; [| exact F]. split; [discriminate | exact C].
        -- cbn [List.concat]. now rewrite E.
    + destruct (IH (cur ++ [c])) as [F E].
      * rewrite forallb_app, C. simpl. now rewrite W.
      * split; [exact F |]. rewrite E, <- app_assoc. reflexivity.
Qed.

Lemma startswith_spec sub s :
  startswith sub s = true <-> exists rest, s = sub ++ rest.
Proof.
  revert s. induction sub as [| a sub IH]; intros s.
  - simpl. split; [intros _; now exists s | reflexivity].
  - destruct s as [| b s]; simpl.
    + split; [discriminate | intros [rest E]; discriminate E].
    + rewrite andb_true_iff, Ascii.eqb_eq, IH. split.
      * intros [-> [rest ->]]. now exists rest.
      * intros [rest E]. injection E as -> ->. split; [reflexivity |].
        now exists rest.
Qed.

Lemma splitlines_from_concat n :
  forall s cur : str,
    List.length s <= n ->
    List.concat (splitlines_from cur s)
    = cur ++ filter (fun c => negb (is_linebreak c)) s.
Proof.
  induction n as [| n IH]; intros s cur Len.
  - destruct s; [| simpl in Len; lia]. simpl. rewrite app_nil_r.
    destruct cur; simpl; now rewrite ?app_nil_r.
  - destruct s as [| c s].
    + simpl. rewrite app_nil_r. destruct cur; simpl; now rewrite ?app_nil_r.
    + cbn [splitlines_from filter]. simpl in Len.
      destruct (is_linebreak c) eqn:B; cbn [negb].
      * destruct s as [| c' s].
        -- cbn [splitlines_from List.concat filter]. reflexivity.
        -- destruct ((code c =? 13) && (code c' =? 10)) eqn:CR.
           ++ cbn [List.concat]. rewrite IH by (simpl in Len; lia).
              cbn [filter app].
              apply andb_true_iff in CR as [_ LF].
              assert (L : is_linebreak c' = true).
              { unfold is_linebreak, between. apply Nat.eqb_eq in LF.
                now rewrite LF. }
              now rewrite L.
           ++ cbn [List.concat]. rewrite IH by (simpl in *; lia).
              reflexivity.
      * rewrite IH by lia. now rewrite <- app_assoc.
Qed.

End Text.

(** X24: the tokens of a line are non-empty, hold no white space, and
    put together are the line without its white space. *)
Theorem split_tokens :
  forall line : str,
    Forall (fun tok => tok <> []
                       /\ forallb (fun c => negb (isspace c)) tok = true)
      (split line)
    /\ List.concat (split line) = filter (fun c => negb (isspace c)) line.
Proof. intros line. apply (split_from_tokens [] line). reflexivity. Qed.

(** X25: the test [sub in s] holds exactly when [sub] occurs in [s] as
    a block of consecutive characters. *)
Theorem contains_occurrence :
  forall sub s : str,
    contains sub s = true <-> exists before after, s = before ++ sub ++ after.
Proof.
  intros sub s. induction s as [| c s IH].
  - cbn [contains]. rewrite orb_false_r, startswith_spec. split.
    + intros [rest E]. now exists [], rest.
    + intros (before & after & E). destruct before as [| b before];
        [now exists after | discriminate E].
  - cbn [contains]. rewrite orb_true_iff, startswith_spec, IH. split.
    + intros [[rest E] | (before & after & ->)].
      * now exists [], rest.
      * now exists (c :: before), after.
    + intros (before & after & E). destruct before as [| b before].
      * left. now exists after.
      * right. injection E as _ ->. now exists before, after.
Qed.

(** X26: the lines of a text, put together, are the text without its
    line boundaries; no character is lost or added. *)
Theorem splitlines_keeps_characters :
  forall text : str,
    List.concat (splitlines text) = filter (fun c => negb (is_linebreak c)) text.
Proof.
  intros text. unfold splitlines.
  now rewrite (splitlines_from_concat (List.length text) text []).
Qed.
